(** * Conversation manager of bot_llm: a shallow embedding and its properties

    The development follows [src/conversation_utils.py].  Python values are
    modelled as follows.
    - [int] is [Z]; [len(...)] is a [nat] injected into [Z] where it meets a
      configured limit.
    - [str] is [string]; one character stands for one code point below 256.
    - A chat message (a dict with the keys "role" and "content") is a record
      of two strings; roles stay strings, as in the source.
    - [time.time()] is an oracle [clock : nat -> Q] read in call order.
    - The optional tokenizer is an [option] of a record of its two
      capabilities; each may raise and is otherwise a function of its
      arguments.
    - The store ([Dict[int, ConversationEntry]]) is a [gmap Z].
    - A raised exception is the [Raise] constructor of [result]; operations
      that mutate before raising return the mutated state next to it. *)

From Stdlib Require Import QArith Ascii String.
From stdpp Require Import gmap strings list fin_maps.

Local Open Scope string_scope.
Local Open Scope Z_scope.

(** ** Exceptions *)

Inductive result (A : Type) : Type :=
| Ok (a : A)
| Raise (e : string).
Arguments Ok {A} a.
Arguments Raise {A} e.

(** ** Data model *)

Record ChatMessage := mkMsg { role : string; content : string }.

Record BotConfig := mkConfig {
  system_prompt : string;
  history_max_pairs : Z;
  history_max_tokens : Z;
  history_ttl_seconds : Z
}.

Record ConversationEntry := mkEntry {
  history : list ChatMessage;
  updated_at : Q
}.

(** What [encoded.get("input_ids", [])] can be: the key is missing, a flat
    list of token ids, or a batch-shaped list of rows. *)
Inductive InputIds :=
| IdsMissing
| IdsFlat (ids : list Z)
| IdsBatch (rows : list (list Z)).

(** The tokenizer object, truthy when present.  [apply_chat_template] is
    [None] when [hasattr(tokenizer, "apply_chat_template")] is false;
    [encode] is the call [tokenizer(prompt, ...)]. *)
Record Tokenizer := mkTokenizer {
  apply_chat_template : option (list ChatMessage -> bool -> result string);
  encode : string -> result InputIds
}.

Record ConversationManager := mkManager {
  _store : gmap Z ConversationEntry;
  _ticks : nat
}.

(** ** Python list and string primitives *)

Definition nl : string := String "010"%char EmptyString.

(** [h[-k:]] for [k >= 0]: the last [k] items, the whole list when [k] is
    [0] (since [-0 = 0]) or exceeds the length. *)
Definition slice_last {A} (k : Z) (h : list A) : list A :=
  if k =? 0 then h
  else drop (Z.to_nat (Z.of_nat (length h) - k)) h.

(** [del h[i:j]] for [0 <= i <= j]. *)
Definition del_slice {A} (i j : nat) (h : list A) : list A :=
  (take i h ++ drop j h)%list.

(** [str.isspace] on one character. *)
Definition is_space (c : ascii) : bool :=
  let n := nat_of_ascii c in
  ((9 <=? n) && (n <=? 13) || (28 <=? n) && (n <=? 32)
   || (n =? 133) || (n =? 160))%nat.

(** [len(s.split())]: the number of maximal runs of non-space characters.
    [in_word] tells whether the previous character belonged to a run. *)
Fixpoint count_words (in_word : bool) (s : string) : nat :=
  match s with
  | EmptyString => 0
  | String c s' =>
      if is_space c then count_words false s'
      else if in_word then count_words true s'
      else S (count_words true s')
  end.

(** ["".join(parts)] *)
Definition join (parts : list string) : string :=
  foldr String.append EmptyString parts.

Module Manager.
Section WithEnvironment.

Variable tokenizer : option Tokenizer.
Variable config : BotConfig.
Variable clock : nat -> Q.

Definition _now (m : ConversationManager) : Q * ConversationManager :=
  (clock (_ticks m), mkManager (_store m) (S (_ticks m))).

(** The loop body shared by [build_prompt] and [build_prompt_from_history]:
    one [if]/[elif] chain appending to [prompt_parts]. *)
Definition append_part (prompt_parts : list string) (msg : ChatMessage)
  : list string :=
  if String.eqb (role msg) "system" then
    (prompt_parts ++ ["<|system|>" +:+ nl +:+ content msg +:+ nl])%list
  else if String.eqb (role msg) "user" then
    (prompt_parts ++ ["<|user|>" +:+ nl +:+ content msg +:+ nl])%list
  else if String.eqb (role msg) "assistant" then
    (prompt_parts ++ ["<|assistant|>" +:+ nl +:+ content msg +:+ nl])%list
  else prompt_parts.

Definition build_prompt_from_history (history : list ChatMessage)
    (add_generation_prompt : bool) : result string :=
  match tokenizer with
  | Some {| apply_chat_template := Some template |} =>
      template history add_generation_prompt
  | _ =>
      let prompt_parts := foldl append_part [] history in
      let prompt_parts :=
        if add_generation_prompt
        then (prompt_parts ++ ["<|assistant|>" +:+ nl])%list
        else prompt_parts in
      Ok (join prompt_parts)
  end.

Definition _count_tokens (prompt : string) : result Z :=
  if String.eqb prompt "" then Ok 0
  else match tokenizer with
       | Some tk =>
           match encode tk prompt with
           | Raise e => Raise e
           | Ok IdsMissing => Ok 0
           | Ok (IdsFlat ids) => Ok (Z.of_nat (length ids))
           | Ok (IdsBatch []) => Ok 0
           | Ok (IdsBatch (row :: _)) => Ok (Z.of_nat (length row))
           end
       | None => Ok (Z.of_nat (count_words false prompt))
       end.

(** The pair-count pass, lines 129-136.  [history[0]] raises [IndexError] on
    an empty list.  The result pairs the outcome with the list as mutated. *)
Definition pair_count_pass (history : list ChatMessage)
  : result unit * list ChatMessage :=
  let max_pairs := history_max_pairs config in
  if 0 <? max_pairs then
    let max_messages := 1 + max_pairs * 2 in
    if max_messages <? Z.of_nat (length history) then
      match history with
      | [] => (Raise "IndexError", history)
      | system :: _ =>
          (Ok tt, ([system] ++ slice_last (max_messages - 1) history)%list)
      end
    else (Ok tt, history)
  else (Ok tt, history).

(** The [while len(history) > 1] loop, lines 143-152.  Every iteration that
    continues removes two items, so [fuel = len(history)] iterations are
    never used up (see [token_budget_loop_fuel]). *)
Fixpoint token_budget_loop (fuel : nat) (history : list ChatMessage)
  : result unit * list ChatMessage :=
  match fuel with
  | O => (Ok tt, history)
  | S fuel' =>
      if (1 <? length history)%nat then
        match build_prompt_from_history history true with
        | Raise e => (Raise e, history)
        | Ok prompt =>
            match _count_tokens prompt with
            | Raise e => (Raise e, history)
            | Ok token_count =>
                if token_count <=? history_max_tokens config
                then (Ok tt, history)
                else if (2 <? length history)%nat
                     then token_budget_loop fuel' (del_slice 1 3 history)
                     else (Ok tt, history)
            end
        end
      else (Ok tt, history)
  end.

(** The token-budget pass, lines 139-152. *)
Definition token_budget_pass (history : list ChatMessage)
  : result unit * list ChatMessage :=
  if history_max_tokens config <=? 0 then (Ok tt, history)
  else token_budget_loop (length history) history.

(** [_truncate_history] mutates the list it is given; the model returns the
    list as it stands when the call returns or raises. *)
Definition _truncate_history (history : list ChatMessage)
  : result unit * list ChatMessage :=
  match pair_count_pass history with
  | (Raise e, history) => (Raise e, history)
  | (Ok _, history) => token_budget_pass history
  end.

(** [current - entry.updated_at > ttl] *)
Definition is_inactive (current : Q) (entry : ConversationEntry) : bool :=
  negb (Qle_bool (current - updated_at entry)
                 (inject_Z (history_ttl_seconds config))).

Definition purge_inactive (m : ConversationManager) : ConversationManager :=
  let ttl := history_ttl_seconds config in
  if ttl <=? 0 then m
  else
    let '(current, m) := _now m in
    let inactive :=
      omap (fun item : Z * ConversationEntry =>
              if is_inactive current item.2 then Some item.1 else None)
           (map_to_list (_store m)) in
    mkManager (foldl (fun store user_id => delete user_id store)
                     (_store m) inactive)
              (_ticks m).

Definition _ensure_entry (m : ConversationManager) (user_id : Z)
  : ConversationEntry * ConversationManager :=
  match _store m !! user_id with
  | Some entry => (entry, m)
  | None =>
      let '(now, m) := _now m in
      let entry := mkEntry [mkMsg "system" (system_prompt config)] now in
      (entry, mkManager (<[user_id := entry]> (_store m)) (_ticks m))
  end.

(** [entry] is the object held by the store, so the append, the timestamp
    and the truncation all land in the store under [user_id], also when the
    truncation raises. *)
Definition add_user_message (m : ConversationManager) (user_id : Z)
    (content : string) : result unit * ConversationManager :=
  let m := purge_inactive m in
  let '(entry, m) := _ensure_entry m user_id in
  let appended := (history entry ++ [mkMsg "user" content])%list in
  let '(now, m) := _now m in
  let '(r, truncated) := _truncate_history appended in
  (r, mkManager (<[user_id := mkEntry truncated now]> (_store m)) (_ticks m)).

Definition add_assistant_message (m : ConversationManager) (user_id : Z)
    (content : string) : result unit * ConversationManager :=
  let '(entry, m) := _ensure_entry m user_id in
  let appended := (history entry ++ [mkMsg "assistant" content])%list in
  let '(now, m) := _now m in
  let '(r, truncated) := _truncate_history appended in
  (r, mkManager (<[user_id := mkEntry truncated now]> (_store m)) (_ticks m)).

Definition build_prompt (m : ConversationManager) (user_id : Z)
    (add_generation_prompt : bool) : result string * ConversationManager :=
  let '(entry, m) := _ensure_entry m user_id in
  let history := history entry in
  match tokenizer with
  | Some {| apply_chat_template := Some template |} =>
      (template history add_generation_prompt, m)
  | _ =>
      let prompt_parts := foldl append_part [] history in
      let prompt_parts :=
        if add_generation_prompt
        then (prompt_parts ++ ["<|assistant|>" +:+ nl])%list
        else prompt_parts in
      (Ok (join prompt_parts), m)
  end.

(** [list(...)] builds a new list of the same messages. *)
Definition get_history (m : ConversationManager) (user_id : Z)
  : list ChatMessage * ConversationManager :=
  let '(entry, m) := _ensure_entry m user_id in
  (history entry, m).

Definition clear_history (m : ConversationManager) (user_id : Z)
  : ConversationManager :=
  match _store m !! user_id with
  | Some _ => mkManager (delete user_id (_store m)) (_ticks m)
  | None => m
  end.

(** ** Call sequences *)

Inductive Call :=
| AddUser (user_id : Z) (content : string)
| AddAssistant (user_id : Z) (content : string)
| GetHistory (user_id : Z)
| BuildPrompt (user_id : Z) (add_generation_prompt : bool)
| ClearHistory (user_id : Z).

(** The manager after one call, whether the call returned or raised. *)
Definition step (m : ConversationManager) (c : Call) : ConversationManager :=
  match c with
  | AddUser u s => (add_user_message m u s).2
  | AddAssistant u s => (add_assistant_message m u s).2
  | GetHistory u => (get_history m u).2
  | BuildPrompt u g => (build_prompt m u g).2
  | ClearHistory u => clear_history m u
  end.

Definition run (m : ConversationManager) (calls : list Call)
  : ConversationManager :=
  foldl step m calls.

End WithEnvironment.

(** [ConversationManager.__init__] *)
Definition init : ConversationManager := mkManager ∅ 0.

End Manager.

(** ** Object identity: what [get_history] hands out

    [get_history] returns [list(entry.history)]: a new list object holding
    references to the very dicts the stored list holds.  To speak about a
    caller mutating what it received, this module keeps Python objects in a
    heap: message dicts and lists of references.  Only the two methods on
    the read path are modelled here; [get_history_refines] relates them to
    [Manager.get_history]. *)

Module Objects.

Definition ref := positive.

Inductive PyObject :=
| DictObj (d : ChatMessage)
| ListObj (items : list ref).

Record Entry := mkEntry { history : ref; updated_at : Q }.

Record World := mkWorld {
  heap : gmap ref PyObject;
  next_ref : ref;
  _store : gmap Z Entry;
  _ticks : nat
}.

Definition alloc (w : World) (o : PyObject) : ref * World :=
  (next_ref w,
   mkWorld (<[next_ref w := o]> (heap w)) (Pos.succ (next_ref w))
           (_store w) (_ticks w)).

(** The items of the list object at [l] (a reference always resolves in
    Python; the default is for references the heap does not hold). *)
Definition list_items (w : World) (l : ref) : list ref :=
  match heap w !! l with
  | Some (ListObj items) => items
  | _ => []
  end.

(** The messages a list object holds, read through its references. *)
Definition contents (w : World) (l : ref) : list ChatMessage :=
  omap (fun r => match heap w !! r with
                 | Some (DictObj d) => Some d
                 | _ => None
                 end)
       (list_items w l).

Section WithEnvironment.

Variable config : BotConfig.
Variable clock : nat -> Q.

Definition _now (w : World) : Q * World :=
  (clock (_ticks w),
   mkWorld (heap w) (next_ref w) (_store w) (S (_ticks w))).

Definition _ensure_entry (w : World) (user_id : Z) : Entry * World :=
  match _store w !! user_id with
  | Some entry => (entry, w)
  | None =>
      let '(system, w) :=
        alloc w (DictObj (mkMsg "system" (system_prompt config))) in
      let '(l, w) := alloc w (ListObj [system]) in
      let '(now, w) := _now w in
      let entry := mkEntry l now in
      (entry,
       mkWorld (heap w) (next_ref w) (<[user_id := entry]> (_store w))
               (_ticks w))
  end.

(** [return list(self._ensure_entry(user_id).history)] *)
Definition get_history (w : World) (user_id : Z) : ref * World :=
  let '(entry, w) := _ensure_entry w user_id in
  alloc w (ListObj (list_items w (history entry))).

End WithEnvironment.

(** *** What a caller can do with the returned list *)

(** [returned[i]["content"] = value] *)
Definition caller_set_content (w : World) (returned : ref) (i : nat)
    (value : string) : World :=
  match list_items w returned !! i with
  | Some r =>
      match heap w !! r with
      | Some (DictObj d) =>
          mkWorld (<[r := DictObj (mkMsg (role d) value)]> (heap w))
                  (next_ref w) (_store w) (_ticks w)
      | _ => w
      end
  | None => w
  end.

(** Any mutation of the returned list object itself ([append], [clear],
    [returned[i] = r], [del returned[i:j]], ...): its items become
    [items]. *)
Definition caller_set_items (w : World) (returned : ref) (items : list ref)
  : World :=
  mkWorld (<[returned := ListObj items]> (heap w)) (next_ref w)
          (_store w) (_ticks w).

Definition init : World := mkWorld ∅ 1%positive ∅ 0.

End Objects.

(** ** The bot: [src/llm_bot.py]

    The two functions between the transport and the manager.  The inference
    client is a parameter: given the messages it returns the contents of the
    choices of a completion ([None] where a choice has no content) or
    raises.  The manager of the module is built with [tokenizer=None]. *)

Module LlmBot.

(** [str.lower] on one character: A-Z and the Latin-1 capitals move up by
    32. *)
Definition lower_char (c : ascii) : ascii :=
  let n := nat_of_ascii c in
  if ((65 <=? n) && (n <=? 90)
      || (192 <=? n) && (n <=? 222) && negb (n =? 215))%nat
  then ascii_of_nat (n + 32)
  else c.

Fixpoint lower (s : string) : string :=
  match s with
  | EmptyString => EmptyString
  | String c s' => String (lower_char c) (lower s')
  end.

(** [needle in s] *)
Fixpoint contains (needle s : string) : bool :=
  String.prefix needle s
  || match s with
     | EmptyString => false
     | String _ s' => contains needle s'
     end.

Fixpoint lstrip (s : string) : string :=
  match s with
  | EmptyString => EmptyString
  | String c s' => if is_space c then lstrip s' else s
  end.

Fixpoint rstrip (s : string) : string :=
  match s with
  | EmptyString => EmptyString
  | String c s' =>
      match rstrip s' with
      | EmptyString => if is_space c then EmptyString
                       else String c EmptyString
      | kept => String c kept
      end
  end.

(** [str.strip()] *)
Definition strip (s : string) : string := rstrip (lstrip s).

Fixpoint string_drop (n : nat) (s : string) : string :=
  match n, s with
  | O, _ => s
  | S n', String _ s' => string_drop n' s'
  | S _, EmptyString => EmptyString
  end.

(** Where the lazy [.*?] stops: the offset of the first ["</think>"],
    whatever its case, in [s].  On the strings of this development (code
    points below 256) [re.IGNORECASE] matches a tag character exactly when
    [str.lower] yields it; above that range it also takes U+0130 and U+0131
    for [i], which these strings cannot carry. *)
Fixpoint find_close (s : string) : option nat :=
  match s with
  | EmptyString => None
  | String _ s' =>
      if String.prefix "</think>" (lower s) then Some O
      else option_map S (find_close s')
  end.

(** [re.sub(r"<think>.*?</think>", "", s, flags=re.IGNORECASE | re.DOTALL)]:
    scanning from the left, a match starts at an opening tag that has a
    closing tag after it and ends with the first such closing tag; matched
    characters are dropped and the scan resumes behind the match.  [skip]
    counts the characters of the current match still to drop.  Tags are
    recognised as in [find_close], exactly for code points below 256. *)
Fixpoint sub_think (skip : nat) (s : string) : string :=
  match s with
  | EmptyString => EmptyString
  | String c s' =>
      match skip with
      | S k => sub_think k s'
      | O =>
          if String.prefix "<think>" (lower s) then
            match find_close (string_drop 7 s) with
            | Some j => sub_think (6 + j + 8) s'
            | None => String c (sub_think 0 s')
            end
          else String c (sub_think 0 s')
      end
  end.

Definition _clean_model_output (text : string) : string :=
  if negb (contains "<think>" (lower text)) then text
  else strip (sub_think 0 text).

(** The reply sent when no answer was produced (the bytes of the UTF-8
    text). *)
Definition apology : string := "Извините, не удалось обработать запрос.".

Section WithEnvironment.

Variable client : list ChatMessage -> result (list (option string)).
Variable config : BotConfig.
Variable clock : nat -> Q.

(** The body of the [try] block: the cleaned content of the first choice,
    or the exception that the [except] clause catches. *)
Definition request_response (messages : list ChatMessage) : result string :=
  match client messages with
  | Raise e => Raise e
  | Ok choices =>
      let content :=
        match choices with
        | [] => ""
        | Some content :: _ => content
        | None :: _ => ""
        end in
      Ok (_clean_model_output (strip content))
  end.

Definition generate_response (m : ConversationManager) (user_id : Z)
    (user_message : string) : result string * ConversationManager :=
  match Manager.add_user_message None config clock m user_id user_message with
  | (Raise e, m) => (Raise e, m)
  | (Ok _, m) =>
      let '(messages, m) := Manager.get_history config clock m user_id in
      match request_response messages with
      | Raise _ => (Ok apology, m)
      | Ok response =>
          if negb (String.eqb response "") then
            match Manager.add_assistant_message None config clock m user_id
                    response with
            | (Raise e, m) => (Raise e, m)
            | (Ok _, m) => (Ok response, m)
            end
          else (Ok apology, m)
      end
  end.

End WithEnvironment.

End LlmBot.

(** * Specification vocabulary *)

(** [trimmed h h']: [h'] keeps item 0 of [h] and drops some of the oldest
    items that follow it. *)
Definition trimmed {A} (h h' : list A) : Prop :=
  exists j : nat, h' = (take 1 h ++ drop (1 + j) h)%list.

Definition system_turn (config : BotConfig) : ChatMessage :=
  mkMsg "system" (system_prompt config).

(** Item 0 is the configured System turn and no later item has that role. *)
Definition pinned (config : BotConfig) (h : list ChatMessage) : Prop :=
  exists rest, h = system_turn config :: rest
               /\ Forall (fun t => role t <> "system") rest.

(** What one iteration of the token loop measures: the tokens of the
    rendering of [h] with the generation cue. *)
Definition token_count (tokenizer : option Tokenizer)
    (h : list ChatMessage) : result Z :=
  match Manager.build_prompt_from_history tokenizer h true with
  | Raise e => Raise e
  | Ok prompt => Manager._count_tokens tokenizer prompt
  end.

Definition within_budget (tokenizer : option Tokenizer) (config : BotConfig)
    (h : list ChatMessage) : Prop :=
  exists n, token_count tokenizer h = Ok n /\ n <= history_max_tokens config.

Definition over_budget (tokenizer : option Tokenizer) (config : BotConfig)
    (h : list ChatMessage) : Prop :=
  exists n, token_count tokenizer h = Ok n /\ history_max_tokens config < n.

(** [k] deletions of the pair at indices 1 and 2. *)
Definition delete_pairs (k : nat) (h : list ChatMessage) : list ChatMessage :=
  Nat.iter k (del_slice 1 3) h.

(** What the loop leaves, for either outcome. *)
Definition loop_post (tokenizer : option Tokenizer) (config : BotConfig)
    (h : list ChatMessage) (r : result unit)
    (h' : list ChatMessage) : Prop :=
  exists k : nat,
    h' = delete_pairs k h
    /\ (forall j : nat, (j < k)%nat ->
          over_budget tokenizer config (delete_pairs j h)
          /\ (2 < length (delete_pairs j h))%nat)
    /\ (r = Ok tt -> within_budget tokenizer config h' \/ (length h' <= 2)%nat)
    /\ (forall e, r = Raise e -> token_count tokenizer h' = Raise e)
    /\ (tokenizer = None -> r = Ok tt).

(** Every stored history satisfies [P]. *)
Definition store_all (P : list ChatMessage -> Prop)
    (m : ConversationManager) : Prop :=
  forall (u : Z) (entry : ConversationEntry),
    _store m !! u = Some entry -> P (history entry).

(** The history an append starts from: the stored one, or the seed that
    [_ensure_entry] creates. *)
Definition prior_history (config : BotConfig) (m : ConversationManager)
    (u : Z) : list ChatMessage :=
  match _store m !! u with
  | Some entry => history entry
  | None => [system_turn config]
  end.

(** A history on which both passes have nothing left to do. *)
Definition fully_truncated (tokenizer : option Tokenizer)
    (config : BotConfig) (h : list ChatMessage) : Prop :=
  (history_max_pairs config <= 0
   \/ Z.of_nat (length h) <= 1 + 2 * history_max_pairs config)
  /\ (history_max_tokens config <= 0
      \/ within_budget tokenizer config h
      \/ (length h <= 2)%nat).

(** The token-budget pass would delete a pair from [h]: the budget is on,
    [h] has more than 2 turns and its rendering measures over budget. *)
Definition evicts (tokenizer : option Tokenizer) (config : BotConfig)
    (h : list ChatMessage) : bool :=
  (0 <? history_max_tokens config) && (2 <? length h)%nat
  && match token_count tokenizer h with
     | Ok n => history_max_tokens config <? n
     | Raise _ => false
     end.

(** The sweep that [add_user_message] starts with would remove the entry of
    [u] from [m]: the TTL is on and the entry is inactive at the reading
    the sweep takes. *)
Definition swept_away (config : BotConfig) (clock : nat -> Q)
    (m : ConversationManager) (u : Z) : bool :=
  (0 <? history_ttl_seconds config)
  && match _store m !! u with
     | Some entry => Manager.is_inactive config (clock (_ticks m)) entry
     | None => false
     end.

(** *** Objects *)

(** Every reference in use was handed out by [alloc]. *)
Definition bounded (w : Objects.World) : Prop :=
  forall (r : Objects.ref) (o : Objects.PyObject),
    Objects.heap w !! r = Some o -> (r < Objects.next_ref w)%positive.

(** [l] is a list object whose items are message dicts. *)
Definition message_list (w : Objects.World) (l : Objects.ref) : Prop :=
  exists items,
    Objects.heap w !! l = Some (Objects.ListObj items)
    /\ Forall (fun r => exists d,
                 Objects.heap w !! r = Some (Objects.DictObj d)) items.

Definition well_formed (w : Objects.World) : Prop :=
  bounded w
  /\ forall (u : Z) (entry : Objects.Entry),
      Objects._store w !! u = Some entry ->
      message_list w (Objects.history entry).

(** The manager a world stands for: every stored list read through its
    references. *)
Definition abstraction (w : Objects.World) : ConversationManager :=
  mkManager
    ((fun entry =>
        mkEntry (Objects.contents w (Objects.history entry))
                (Objects.updated_at entry))
       <$> Objects._store w)
    (Objects._ticks w).

(** [w'] still holds every object of [w], unchanged. *)
Definition heap_extends (w w' : Objects.World) : Prop :=
  forall (r : Objects.ref) (o : Objects.PyObject),
    Objects.heap w !! r = Some o -> Objects.heap w' !! r = Some o.

(** ** The fallback format in the words of the specification

    Turns carry a role out of three; the rendering is the concatenation,
    turn by turn, of the tag line of the role, the content and a newline,
    followed by a bare assistant tag line when the cue is asked for. *)

Inductive Role := System | User | Assistant.

Record ChatTurn := mkTurn { turn_role : Role; turn_content : string }.

Definition role_name (r : Role) : string :=
  match r with
  | System => "system"
  | User => "user"
  | Assistant => "assistant"
  end.

Definition to_message (t : ChatTurn) : ChatMessage :=
  mkMsg (role_name (turn_role t)) (turn_content t).

Definition tag_line (r : Role) : string :=
  match r with
  | System => "<|system|>" +:+ nl
  | User => "<|user|>" +:+ nl
  | Assistant => "<|assistant|>" +:+ nl
  end.

Fixpoint fallback_rendering (turns : list ChatTurn) (cue : bool) : string :=
  match turns with
  | [] => if cue then tag_line Assistant else ""
  | t :: turns' =>
      tag_line (turn_role t) +:+ turn_content t +:+ nl
      +:+ fallback_rendering turns' cue
  end.

(** ** Call logs *)

(** The user a call is made for. *)
Definition call_user (c : Manager.Call) : Z :=
  match c with
  | Manager.AddUser u _ | Manager.AddAssistant u _ | Manager.GetHistory u
  | Manager.BuildPrompt u _ | Manager.ClearHistory u => u
  end.

(** The turn a call appends, if it appends one. *)
Definition call_message (c : Manager.Call) : option ChatMessage :=
  match c with
  | Manager.AddUser _ s => Some (mkMsg "user" s)
  | Manager.AddAssistant _ s => Some (mkMsg "assistant" s)
  | _ => None
  end.

(** The turns appended for [u], in call order. *)
Definition messages_for (u : Z) (calls : list Manager.Call)
  : list ChatMessage :=
  omap (fun c => if decide (call_user c = u) then call_message c else None)
       calls.

Definition is_clear (c : Manager.Call) : bool :=
  match c with
  | Manager.ClearHistory _ => true
  | _ => false
  end.

(** Every stored history is the System turn followed by a suffix of [log]
    taken at its user. *)
Definition follows_log (config : BotConfig)
    (log : Z -> list ChatMessage) (m : ConversationManager) : Prop :=
  forall (u : Z) (entry : ConversationEntry),
    _store m !! u = Some entry ->
    exists k : nat, history entry = system_turn config :: drop k (log u).

(** * Sample inputs *)

Definition budget_demo_config : BotConfig := mkConfig "sys" 0 8 0.

Definition budget_demo_history : list ChatMessage :=
  [mkMsg "system" "sys"; mkMsg "user" "Au"; mkMsg "assistant" "Aa";
   mkMsg "user" "Bu"].

(** A clock that stands still. *)
Definition still_clock : nat -> Q := fun _ => 0%Q.

Definition sample_config : BotConfig := mkConfig "sys" 1 2048 3600.

Definition split_calls : list Manager.Call :=
  [Manager.AddUser 7 "m1"; Manager.AddAssistant 7 "r1";
   Manager.AddUser 7 "m2"].

Definition sample_entry : ConversationEntry :=
  mkEntry [mkMsg "system" "sys"; mkMsg "assistant" "r1"; mkMsg "user" "m2"]
          0%Q.

(** A clock that advances 4000 seconds between readings. *)
Definition striding_clock : nat -> Q := fun n => inject_Z (4000 * Z.of_nat n).

Definition ttl_demo_entry : ConversationEntry :=
  mkEntry [mkMsg "system" "sys"; mkMsg "user" "hi"] (inject_Z 8000).

(** The manager after [add_user_message 7 "hi"] under [striding_clock]. *)
Definition ttl_demo_manager : ConversationManager :=
  mkManager {[ 7 := ttl_demo_entry ]} 3.

Definition scenario_turns : list ChatTurn :=
  [mkTurn System "s"; mkTurn User "u"].

Definition scenario_manager : ConversationManager :=
  mkManager {[ 7 := mkEntry (to_message <$> scenario_turns) 0%Q ]} 0.

(** A tokenizer that yields one token per character and whose encode step
    fails on prompts shorter than 90 characters. *)
Definition short_prompt_failing : Tokenizer :=
  mkTokenizer None
    (fun prompt =>
       if (String.length prompt <? 90)%nat then Raise "EncodingError"
       else Ok (IdsFlat (replicate (String.length prompt) 0))).

Definition failure_config : BotConfig := mkConfig "sys" 0 10 0.

Definition failure_history : list ChatMessage :=
  [mkMsg "system" "sys"; mkMsg "user" "Au"; mkMsg "assistant" "Aa";
   mkMsg "user" "Bu"; mkMsg "assistant" "Ba"; mkMsg "user" "Cu"].

Definition failure_left : list ChatMessage :=
  [mkMsg "system" "sys"; mkMsg "user" "Bu"; mkMsg "assistant" "Ba";
   mkMsg "user" "Cu"].

Definition failure_calls : list Manager.Call :=
  [Manager.AddUser 7 "Au"; Manager.AddAssistant 7 "Aa";
   Manager.AddUser 7 "Bu"; Manager.AddAssistant 7 "Ba"].

(** A small token budget and no expiry.  The fallback counter sees 2 tokens
    per turn and 1 for the cue. *)
Definition tight_config (max_pairs max_tokens : Z) : BotConfig :=
  mkConfig "sys" max_pairs max_tokens 0.

Definition pairs_ABC : list Manager.Call :=
  [Manager.AddUser 7 "Au"; Manager.AddAssistant 7 "Aa";
   Manager.AddUser 7 "Bu"; Manager.AddAssistant 7 "Ba";
   Manager.AddUser 7 "Cu"; Manager.AddAssistant 7 "Ca"].

(** The default budget and TTL of [BotConfig]. *)
Definition roomy_config (max_pairs : Z) : BotConfig :=
  mkConfig "sys" max_pairs 2048 3600.


Definition two_user_manager : ConversationManager :=
  mkManager {[ 7 := sample_entry;
               8 := mkEntry [mkMsg "system" "sys"; mkMsg "user" "hello"]
                            0%Q ]} 5.

(** A tokenizer whose every capability raises. *)
Definition failing_tokenizer : Tokenizer :=
  mkTokenizer (Some (fun _ _ => Raise "TemplateError"))
              (fun _ => Raise "EncodingError").

(** An inference client whose reply starts with a think block. *)
Definition thinking_client (messages : list ChatMessage)
  : result (list (option string)) :=
  Ok [Some "<think>greeting</think> Hi there "].

(** An inference client that cannot be reached. *)
Definition down_client (messages : list ChatMessage)
  : result (list (option string)) :=
  Raise "ConnectionError".

(** An inference client whose completion has no choices. *)
Definition silent_client (messages : list ChatMessage)
  : result (list (option string)) :=
  Ok [].

(** A clock that advances 1000 seconds between readings. *)
Definition walking_clock : nat -> Q := fun n => inject_Z (1000 * Z.of_nat n).

(** * Properties *)

Import Manager.

(** ** List primitives *)

Lemma slice_last_drop {A} (k : Z) (x : A) (rest : list A) :
  0 < k -> k < Z.of_nat (length (x :: rest)) ->
  slice_last k (x :: rest) = drop (length rest - Z.to_nat k) rest.
Proof.
  intros Hk Hlen. unfold slice_last.
  destruct (Z.eqb_spec k 0) as [->|_]; [lia|].
  simpl length in *.
  replace (Z.to_nat (Z.of_nat (S (length rest)) - k))
    with (S (length rest - Z.to_nat k)) by lia.
  reflexivity.
Qed.

Lemma del_slice_length {A} (h : list A) :
  (2 < length h)%nat -> length (del_slice 1 3 h) = (length h - 2)%nat.
Proof.
  intros Hlen. unfold del_slice.
  rewrite length_app, length_take, length_drop. lia.
Qed.

Lemma trimmed_refl {A} (h : list A) : trimmed h h.
Proof. exists 0%nat. by rewrite take_drop. Qed.

Lemma trimmed_cons {A} (x : A) (rest : list A) (j : nat) :
  trimmed (x :: rest) (x :: drop j rest).
Proof. by exists j. Qed.

Lemma trimmed_cons_inv {A} (x : A) (rest h' : list A) :
  trimmed (x :: rest) h' -> exists j : nat, h' = x :: drop j rest.
Proof. intros [j ->]. by exists j. Qed.

Lemma trimmed_trans {A} (h1 h2 h3 : list A) :
  trimmed h1 h2 -> trimmed h2 h3 -> trimmed h1 h3.
Proof.
  destruct h1 as [|x rest].
  - intros [j ->] [j' ->]. exists 0%nat. by rewrite !drop_nil.
  - intros [j ->]%trimmed_cons_inv [j' ->]%trimmed_cons_inv.
    rewrite drop_drop. apply trimmed_cons.
Qed.

Lemma trimmed_length {A} (h h' : list A) :
  trimmed h h' -> (length h' <= length h)%nat.
Proof.
  intros [j ->]. rewrite length_app, length_take, length_drop. lia.
Qed.

Lemma trimmed_head {A} (h h' : list A) : trimmed h h' -> head h' = head h.
Proof. intros [j ->]. by destruct h. Qed.

Lemma trimmed_nonempty {A} (h h' : list A) :
  trimmed h h' -> h <> [] -> h' <> [].
Proof. intros [j ->]. by destruct h. Qed.

Lemma trimmed_del_slice {A} (h : list A) : trimmed h (del_slice 1 3 h).
Proof. by exists 2%nat. Qed.

Lemma trimmed_delete_pairs (k : nat) (h : list ChatMessage) :
  trimmed h (delete_pairs k h).
Proof.
  induction k as [|k IH]; [apply trimmed_refl|].
  eapply trimmed_trans; [exact IH|]. apply trimmed_del_slice.
Qed.

Lemma pinned_trimmed config (h h' : list ChatMessage) :
  pinned config h -> trimmed h h' -> pinned config h'.
Proof.
  intros (rest & -> & Hrest) [j ->]%trimmed_cons_inv.
  exists (drop j rest). split; [done|]. by apply Forall_drop.
Qed.

(** ** The truncator *)

Section Truncator.

Variable tokenizer : option Tokenizer.
Variable config : BotConfig.

Lemma pair_count_pass_ok (h : list ChatMessage) :
  (pair_count_pass config h).1 = Ok tt.
Proof.
  unfold pair_count_pass.
  destruct (Z.ltb_spec 0 (history_max_pairs config)); [|done].
  destruct (Z.ltb_spec (1 + history_max_pairs config * 2)
                       (Z.of_nat (length h))); [|done].
  destruct h; [simpl in *; lia|done].
Qed.

Lemma pair_count_pass_trimmed (h : list ChatMessage) :
  trimmed h (pair_count_pass config h).2.
Proof.
  unfold pair_count_pass.
  destruct (Z.ltb_spec 0 (history_max_pairs config)); [|apply trimmed_refl].
  destruct (Z.ltb_spec (1 + history_max_pairs config * 2)
                       (Z.of_nat (length h))); [|apply trimmed_refl].
  destruct h as [|x rest]; [apply trimmed_refl|].
  cbn [snd app]. rewrite slice_last_drop by lia. apply trimmed_cons.
Qed.

Lemma pair_count_pass_length (h : list ChatMessage) :
  0 < history_max_pairs config ->
  Z.of_nat (length (pair_count_pass config h).2)
  <= 1 + 2 * history_max_pairs config.
Proof.
  intros Hpos. unfold pair_count_pass.
  destruct (Z.ltb_spec 0 (history_max_pairs config)); [|lia].
  destruct (Z.ltb_spec (1 + history_max_pairs config * 2)
                       (Z.of_nat (length h))); [|simpl; lia].
  destruct h as [|x rest]; [simpl in *; lia|].
  cbn [snd app]. rewrite slice_last_drop by lia.
  simpl length in *. rewrite length_drop. lia.
Qed.

Lemma token_budget_loop_fuel (fuel : nat) (h : list ChatMessage) :
  (length h <= fuel)%nat ->
  token_budget_loop tokenizer config fuel h
  = token_budget_loop tokenizer config (length h) h.
Proof.
  enough (Hall : forall f1 f2 (l : list ChatMessage),
             (length l <= f1)%nat -> (length l <= f2)%nat ->
             token_budget_loop tokenizer config f1 l
             = token_budget_loop tokenizer config f2 l)
    by (intros; by apply Hall).
  induction f1 as [|f1 IH]; intros f2 l H1 H2.
  - destruct l; [|simpl in H1; lia]. by destruct f2.
  - destruct f2 as [|f2].
    + destruct l; [done|simpl in H2; lia].
    + simpl. destruct (Nat.ltb_spec 1 (length l)); [|done].
      destruct (build_prompt_from_history tokenizer l true); [|done].
      destruct (_count_tokens tokenizer a); [|done].
      destruct (a0 <=? history_max_tokens config); [done|].
      destruct (Nat.ltb_spec 2 (length l)); [|done].
      apply IH; rewrite del_slice_length; lia.
Qed.

(** The loop satisfies the equation of the [while] statement it models. *)
Lemma token_budget_loop_unfold (h : list ChatMessage) :
  token_budget_loop tokenizer config (length h) h
  = if (1 <? length h)%nat then
      match token_count tokenizer h with
      | Raise e => (Raise e, h)
      | Ok n =>
          if n <=? history_max_tokens config then (Ok tt, h)
          else if (2 <? length h)%nat then
                 token_budget_loop tokenizer config
                   (length (del_slice 1 3 h)) (del_slice 1 3 h)
               else (Ok tt, h)
      end
    else (Ok tt, h).
Proof.
  unfold token_count. destruct h as [|x rest]; [done|].
  cbn [length token_budget_loop].
  destruct (Nat.ltb_spec 1 (S (length rest))); [|done].
  destruct (build_prompt_from_history tokenizer (x :: rest) true); [|done].
  destruct (_count_tokens tokenizer a); [|done].
  destruct (a0 <=? history_max_tokens config); [done|].
  destruct (Nat.ltb_spec 2 (S (length rest))); [|done].
  apply token_budget_loop_fuel. rewrite del_slice_length; simpl; lia.
Qed.

Lemma token_count_no_tokenizer (h : list ChatMessage) :
  exists n, token_count None h = Ok n.
Proof.
  unfold token_count, build_prompt_from_history, _count_tokens.
  destruct (String.eqb _ ""); eauto.
Qed.

Lemma delete_pairs_succ_r (k : nat) (h : list ChatMessage) :
  delete_pairs (S k) h = delete_pairs k (del_slice 1 3 h).
Proof. apply Nat.iter_succ_r. Qed.

Lemma token_budget_loop_post (h : list ChatMessage) :
  loop_post tokenizer config h (token_budget_loop tokenizer config (length h) h).1
              (token_budget_loop tokenizer config (length h) h).2.
Proof.
  remember (length h) as n eqn:Hn.
  revert h Hn. induction (lt_wf n) as [n _ IH]. intros h ->.
  rewrite token_budget_loop_unfold.
  assert (Hstop : forall l : list ChatMessage,
             (length l <= 2)%nat -> loop_post tokenizer config l (Ok tt) l).
  { intros l Hl. exists 0%nat. split_and!; [done|intros; lia|auto|done|done]. }
  destruct (Nat.ltb_spec 1 (length h)); [|apply Hstop; simpl; lia].
  destruct (token_count tokenizer h) as [n|e] eqn:Hcount.
  - destruct (Z.leb_spec n (history_max_tokens config)).
    + cbn [fst snd]. exists 0%nat. split_and!; [done|intros; lia| |done|done].
      intros _. left. by exists n.
    + destruct (Nat.ltb_spec 2 (length h)); [|apply Hstop; simpl; lia].
      destruct (IH (length (del_slice 1 3 h))) with (h := del_slice 1 3 h)
        as (k & Hk & Hover & Hend & Hraise & Hnone);
        [rewrite del_slice_length; lia|done|].
      exists (S k). rewrite delete_pairs_succ_r.
      split_and!; [done| |done|done|done].
      intros [|j] Hj.
      * split; [by exists n|done].
      * rewrite delete_pairs_succ_r. apply Hover. lia.
  - cbn [fst snd]. exists 0%nat.
    split_and!; [done|intros; lia|done|by intros ? [= <-]|].
    intros ->. destruct (token_count_no_tokenizer h). congruence.
Qed.

End Truncator.

Lemma token_budget_pass_trimmed tokenizer config (h : list ChatMessage) :
  trimmed h (token_budget_pass tokenizer config h).2.
Proof.
  unfold token_budget_pass.
  destruct (history_max_tokens config <=? 0); [apply trimmed_refl|].
  destruct (token_budget_loop_post tokenizer config h) as (k & -> & _).
  apply trimmed_delete_pairs.
Qed.

(** C2. With a positive budget [B], the token-budget pass deletes the pair
    at indices 1 and 2 some [k] times; before each deletion the rendered
    history measured more than [B] tokens and had more than 2 turns; when
    the pass returns, the rendered history measures at most [B] tokens or
    at most 2 turns are left; it raises only where measuring raises, and
    never without a tokenizer; item 0 stays and a non-empty history stays
    non-empty. *)
Theorem token_budget_pass_spec tokenizer config (h : list ChatMessage)
    (r : result unit) (h' : list ChatMessage) :
  0 < history_max_tokens config ->
  token_budget_pass tokenizer config h = (r, h') ->
  (exists k : nat,
      h' = delete_pairs k h
      /\ forall j : nat, (j < k)%nat ->
           over_budget tokenizer config (delete_pairs j h)
           /\ (2 < length (delete_pairs j h))%nat)
  /\ (r = Ok tt ->
      within_budget tokenizer config h' \/ (length h' <= 2)%nat)
  /\ (forall e, r = Raise e -> token_count tokenizer h' = Raise e)
  /\ (tokenizer = None -> r = Ok tt)
  /\ head h' = head h
  /\ (h <> [] -> h' <> []).
Proof.
  intros HB Hpass.
  pose proof (token_budget_pass_trimmed tokenizer config h) as Htrim.
  rewrite Hpass in Htrim. cbn [snd] in Htrim.
  unfold token_budget_pass in Hpass.
  destruct (Z.leb_spec (history_max_tokens config) 0); [lia|].
  pose proof (token_budget_loop_post tokenizer config h) as Hpost.
  rewrite Hpass in Hpost.
  destruct Hpost as (k & Hk & Hover & Hend & Hraise & Hnone).
  split_and!; [by exists k|done|done|done| |].
  - by apply trimmed_head.
  - by apply trimmed_nonempty.
Qed.

Lemma token_budget_pass_spec_witness :
  token_budget_pass None budget_demo_config budget_demo_history
  = (Ok tt, [mkMsg "system" "sys"; mkMsg "user" "Bu"])
  /\ head [mkMsg "system" "sys"; mkMsg "user" "Bu"]
     = head budget_demo_history.
Proof.
  split; [reflexivity|].
  apply (token_budget_pass_spec None budget_demo_config budget_demo_history
           (Ok tt)); [reflexivity|reflexivity].
Defined.

Lemma truncate_history_trimmed tokenizer config (h : list ChatMessage) :
  trimmed h (_truncate_history tokenizer config h).2.
Proof.
  unfold _truncate_history.
  pose proof (pair_count_pass_ok config h) as Hok.
  pose proof (pair_count_pass_trimmed config h) as Htrim.
  destruct (pair_count_pass config h) as [[[]|e] h1]; [|done].
  eapply trimmed_trans; [exact Htrim|]. apply token_budget_pass_trimmed.
Qed.

Lemma truncate_history_length tokenizer config (h : list ChatMessage) :
  0 < history_max_pairs config ->
  Z.of_nat (length (_truncate_history tokenizer config h).2)
  <= 1 + 2 * history_max_pairs config.
Proof.
  intros Hpos. unfold _truncate_history.
  pose proof (pair_count_pass_ok config h) as Hok.
  pose proof (pair_count_pass_length config h Hpos) as Hlen.
  destruct (pair_count_pass config h) as [[[]|e] h1]; [|done].
  pose proof (trimmed_length _ _ (token_budget_pass_trimmed tokenizer config h1)).
  cbn [snd] in Hlen. lia.
Qed.

(** ** The store *)

Lemma foldl_delete_lookup (l : list Z) (store : gmap Z ConversationEntry)
    (u : Z) :
  foldl (fun s k => delete k s) store l !! u
  = if decide (u ∈ l) then None else store !! u.
Proof.
  revert store. induction l as [|k l IH]; intros store; [done|].
  cbn [foldl]. rewrite IH.
  destruct (decide (u = k)) as [->|Hne].
  - rewrite lookup_delete_eq.
    rewrite (decide_True (P := k ∈ k :: l)) by (apply elem_of_cons; auto).
    by destruct (decide (k ∈ l)).
  - rewrite lookup_delete_ne by done.
    destruct (decide (u ∈ l)) as [Hl|Hl].
    + rewrite decide_True; [done|]. apply elem_of_cons; auto.
    + rewrite decide_False; [done|]. by apply not_elem_of_cons.
Qed.

Section Store.

Variable tokenizer : option Tokenizer.
Variable config : BotConfig.
Variable clock : nat -> Q.

(** The entry of [u] after the sweep: gone when the sweep is enabled and the
    entry is inactive at the reading the sweep takes, untouched otherwise. *)
Lemma purge_inactive_lookup (m : ConversationManager) (u : Z) :
  _store (purge_inactive config clock m) !! u
  = if history_ttl_seconds config <=? 0 then _store m !! u
    else match _store m !! u with
         | Some entry =>
             if is_inactive config (clock (_ticks m)) entry then None
             else Some entry
         | None => None
         end.
Proof.
  unfold purge_inactive.
  destruct (history_ttl_seconds config <=? 0); [done|].
  cbn [_now _store]. rewrite foldl_delete_lookup.
  set (f := fun item : Z * ConversationEntry =>
              if is_inactive config (clock (_ticks m)) item.2
              then Some item.1 else None).
  destruct (decide (u ∈ omap f (map_to_list (_store m)))) as [Hin|Hnin].
  - apply list_elem_of_omap in Hin as ([k e] & Hke & Hf).
    apply elem_of_map_to_list in Hke. unfold f in Hf. cbn in Hf.
    destruct (is_inactive config (clock (_ticks m)) e) eqn:He; [|done].
    injection Hf as ->. by rewrite Hke, He.
  - destruct (_store m !! u) as [e|] eqn:Hu; [|done].
    destruct (is_inactive config (clock (_ticks m)) e) eqn:He; [|done].
    exfalso. apply Hnin. apply list_elem_of_omap.
    exists (u, e). split; [by apply elem_of_map_to_list|].
    unfold f. cbn. by rewrite He.
Qed.

Lemma purge_inactive_subset (m : ConversationManager) (u : Z)
    (entry : ConversationEntry) :
  _store (purge_inactive config clock m) !! u = Some entry ->
  _store m !! u = Some entry.
Proof.
  rewrite purge_inactive_lookup.
  destruct (history_ttl_seconds config <=? 0); [done|].
  destruct (_store m !! u) as [e|]; [|done].
  by destruct (is_inactive config (clock (_ticks m)) e).
Qed.

End Store.

(** ** Invariants of the stored histories

    A property of histories that holds of the seeded history and survives
    appending a non-System turn and truncating holds of every stored
    history after any calls. *)

Section Invariant.

Variable tokenizer : option Tokenizer.
Variable config : BotConfig.
Variable clock : nat -> Q.
Variable P : list ChatMessage -> Prop.

Hypothesis P_seed : P [system_turn config].
Hypothesis P_append :
  forall (h : list ChatMessage) (msg : ChatMessage),
    P h -> role msg <> "system" ->
    P (_truncate_history tokenizer config (h ++ [msg])).2.

Lemma purge_inactive_inv (m : ConversationManager) :
  store_all P m -> store_all P (purge_inactive config clock m).
Proof. intros Hm u e Hu%purge_inactive_subset. by apply (Hm u). Qed.

Lemma ensure_entry_inv (m : ConversationManager) (user_id : Z) :
  store_all P m ->
  P (history (_ensure_entry config clock m user_id).1)
  /\ store_all P (_ensure_entry config clock m user_id).2.
Proof.
  intros Hm. unfold _ensure_entry.
  destruct (_store m !! user_id) as [e|] eqn:Hu; cbn.
  - split; [by apply (Hm user_id)|done].
  - split; [done|]. intros u e. cbn.
    destruct (decide (user_id = u)) as [->|Hne].
    + rewrite lookup_insert_eq. by intros [= <-].
    + rewrite lookup_insert_ne by done. apply Hm.
Qed.

Lemma append_inv (m : ConversationManager) (user_id : Z)
    (msg : ChatMessage) (now : Q) (ticks : nat) :
  store_all P m -> role msg <> "system" ->
  store_all P
    (mkManager
       (<[user_id :=
            mkEntry
              (_truncate_history tokenizer config
                 (history (_ensure_entry config clock m user_id).1
                  ++ [msg])).2
              now]>
          (_store (_ensure_entry config clock m user_id).2))
       ticks).
Proof.
  intros Hm Hrole. destruct (ensure_entry_inv m user_id Hm) as [He Hm'].
  intros u e. cbn.
  destruct (decide (user_id = u)) as [->|Hne].
  - rewrite lookup_insert_eq. intros [= <-]. cbn. by apply P_append.
  - rewrite lookup_insert_ne by done. apply Hm'.
Qed.

Lemma step_inv (m : ConversationManager) (c : Call) :
  store_all P m -> store_all P (step tokenizer config clock m c).
Proof.
  intros Hm. destruct c as [u s|u s|u|u g|u]; cbn [step].
  - unfold add_user_message.
    pose proof (append_inv (purge_inactive config clock m) u
                  (mkMsg "user" s)) as Happ.
    destruct (_ensure_entry config clock (purge_inactive config clock m) u)
      as [e m1]. cbn [_now fst snd] in *.
    destruct (_truncate_history tokenizer config (history e ++ [_]))
      as [r h']. cbn [snd] in *.
    apply Happ; [by apply purge_inactive_inv|done].
  - unfold add_assistant_message.
    pose proof (append_inv m u (mkMsg "assistant" s)) as Happ.
    destruct (_ensure_entry config clock m u) as [e m1].
    cbn [_now fst snd] in *.
    destruct (_truncate_history tokenizer config (history e ++ [_]))
      as [r h']. cbn [snd] in *.
    by apply Happ.
  - unfold get_history.
    destruct (ensure_entry_inv m u Hm) as [_ Hm'].
    by destruct (_ensure_entry config clock m u).
  - unfold build_prompt.
    destruct (ensure_entry_inv m u Hm) as [_ Hm'].
    destruct (_ensure_entry config clock m u) as [e m1].
    by destruct tokenizer as [[[template|] enc]|].
  - unfold clear_history.
    destruct (_store m !! u); [|done].
    intros u' e'. cbn. intros [_ Hu]%lookup_delete_Some. by apply (Hm u').
Qed.

Lemma run_inv (calls : list Call) (m : ConversationManager) :
  store_all P m -> store_all P (run tokenizer config clock m calls).
Proof.
  revert m. induction calls as [|c calls IH]; intros m Hm; [done|].
  cbn. apply IH. by apply step_inv.
Qed.

End Invariant.

Lemma store_all_init (P : list ChatMessage -> Prop) : store_all P init.
Proof. intros u e. cbn. by rewrite lookup_empty. Qed.

(** ** Pinned System turn and pair cap *)

Lemma pinned_seed config : pinned config [system_turn config].
Proof. by exists []. Qed.

Lemma pinned_append tokenizer config (h : list ChatMessage)
    (msg : ChatMessage) :
  pinned config h -> role msg <> "system" ->
  pinned config (_truncate_history tokenizer config (h ++ [msg])).2.
Proof.
  intros (rest & -> & Hrest) Hrole.
  apply pinned_trimmed
    with (h := ((system_turn config :: rest) ++ [msg])%list).
  - exists (rest ++ [msg])%list. split; [done|].
    apply Forall_app. split; [done|]. by apply Forall_singleton.
  - apply truncate_history_trimmed.
Qed.

(** C1. In every state reached from a new manager by any calls of
    [add_user_message], [add_assistant_message], [get_history],
    [build_prompt] and [clear_history], whether they return or raise, every
    stored history is non-empty, its item 0 is the System turn with the
    configured prompt, and no other item has the System role. *)
Theorem pinned_system_turn tokenizer config clock (calls : list Call)
    (user_id : Z) (entry : ConversationEntry) :
  _store (run tokenizer config clock init calls) !! user_id = Some entry ->
  history entry <> []
  /\ history entry !! 0%nat = Some (mkMsg "system" (system_prompt config))
  /\ forall (i : nat) (t : ChatMessage),
       history entry !! i = Some t -> role t = "system" -> i = 0%nat.
Proof.
  intros Hu.
  assert (Hpin : pinned config (history entry)).
  { eapply (run_inv tokenizer config clock (pinned config)); [| | |exact Hu].
    - apply pinned_seed.
    - apply pinned_append.
    - apply store_all_init. }
  destruct Hpin as (rest & -> & Hrest). split_and!; [done|done|].
  intros [|i] t Ht Hrole; [done|]. cbn in Ht.
  rewrite Forall_lookup in Hrest. by destruct (Hrest i t Ht).
Qed.

Lemma pinned_system_turn_witness :
  _store (run None sample_config still_clock init split_calls) !! 7
  = Some sample_entry
  /\ history sample_entry !! 0%nat = Some (mkMsg "system" "sys").
Proof.
  split; [reflexivity|].
  apply (pinned_system_turn None sample_config still_clock split_calls 7
           sample_entry).
  reflexivity.
Defined.

(** C3. With [history_max_pairs = N > 0], after any calls every stored
    history has at most [1 + 2N] turns. *)
Theorem pair_cap tokenizer config clock (calls : list Call)
    (user_id : Z) (entry : ConversationEntry) :
  0 < history_max_pairs config ->
  _store (run tokenizer config clock init calls) !! user_id = Some entry ->
  Z.of_nat (length (history entry)) <= 1 + 2 * history_max_pairs config.
Proof.
  intros Hpos Hu.
  eapply (run_inv tokenizer config clock
            (fun h => Z.of_nat (length h) <= 1 + 2 * history_max_pairs config));
    [| | |exact Hu].
  - cbn. lia.
  - intros h msg _ _. by apply truncate_history_length.
  - apply store_all_init.
Qed.

Lemma pair_cap_witness :
  Z.of_nat (length (history sample_entry))
  <= 1 + 2 * history_max_pairs sample_config.
Proof.
  apply (pair_cap None sample_config still_clock split_calls 7 sample_entry);
    reflexivity.
Defined.

(** ** Fallback rendering *)

Lemma string_app_assoc (a b c : string) : (a +:+ b) +:+ c = a +:+ b +:+ c.
Proof.
  induction a as [|x a IH]; [done|].
  change (String x ((a +:+ b) +:+ c) = String x (a +:+ b +:+ c)).
  by f_equal.
Qed.

Lemma string_app_empty_r (a : string) : a +:+ "" = a.
Proof.
  induction a as [|x a IH]; [done|].
  change (String x (a +:+ "") = String x a). by f_equal.
Qed.

Lemma join_cons (x : string) (l : list string) : join (x :: l) = x +:+ join l.
Proof. reflexivity. Qed.

Lemma join_app (l1 l2 : list string) :
  join (l1 ++ l2) = join l1 +:+ join l2.
Proof.
  induction l1 as [|x l1 IH]; [done|].
  rewrite <- app_comm_cons, !join_cons, IH. by rewrite string_app_assoc.
Qed.

Lemma append_part_turn (parts : list string) (t : ChatTurn) :
  append_part parts (to_message t)
  = (parts ++ [tag_line (turn_role t) +:+ turn_content t +:+ nl])%list.
Proof. by destruct t as [[] c]. Qed.

Lemma foldl_append_part (turns : list ChatTurn) (parts : list string) :
  join (foldl append_part parts (to_message <$> turns))
  = join parts +:+ fallback_rendering turns false.
Proof.
  revert parts. induction turns as [|t turns IH]; intros parts.
  - cbn [fmap list_fmap foldl fallback_rendering].
    by rewrite string_app_empty_r.
  - cbn [fmap list_fmap foldl]. rewrite append_part_turn, IH, join_app.
    rewrite join_cons. cbn [join foldr fallback_rendering].
    by rewrite string_app_empty_r, !string_app_assoc.
Qed.

Lemma fallback_rendering_cue (turns : list ChatTurn) :
  fallback_rendering turns true
  = fallback_rendering turns false +:+ tag_line Assistant.
Proof.
  induction turns as [|t turns IH]; [done|].
  cbn [fallback_rendering]. by rewrite IH, !string_app_assoc.
Qed.

Lemma fallback_parts (turns : list ChatTurn) (cue : bool) :
  join (if cue
        then (foldl append_part [] (to_message <$> turns)
              ++ ["<|assistant|>" +:+ nl])%list
        else foldl append_part [] (to_message <$> turns))
  = fallback_rendering turns cue.
Proof.
  destruct cue.
  - rewrite join_app, foldl_append_part, fallback_rendering_cue.
    by rewrite join_cons, string_app_empty_r.
  - by rewrite foldl_append_part.
Qed.

(** ** Appends, entry by entry *)

Section Appends.

Variable tokenizer : option Tokenizer.
Variable config : BotConfig.
Variable clock : nat -> Q.

Lemma ensure_entry_history (m : ConversationManager) (u : Z) :
  history (_ensure_entry config clock m u).1 = prior_history config m u.
Proof.
  unfold _ensure_entry, prior_history. by destruct (_store m !! u).
Qed.

Lemma ensure_entry_other (m : ConversationManager) (u u' : Z) :
  u <> u' ->
  _store (_ensure_entry config clock m u).2 !! u' = _store m !! u'.
Proof.
  intros Hne. unfold _ensure_entry.
  destruct (_store m !! u); [done|]. cbn. by rewrite lookup_insert_ne.
Qed.

(** The part of both appends that follows the sweep. *)
Lemma add_assistant_message_entry (m : ConversationManager) (u : Z)
    (c : string) :
  let h := (prior_history config m u ++ [mkMsg "assistant" c])%list in
  (add_assistant_message tokenizer config clock m u c).1
  = (_truncate_history tokenizer config h).1
  /\ (exists j : nat,
        _store (add_assistant_message tokenizer config clock m u c).2 !! u
        = Some (mkEntry (_truncate_history tokenizer config h).2 (clock j)))
  /\ (forall u' : Z, u <> u' ->
        _store (add_assistant_message tokenizer config clock m u c).2 !! u'
        = _store m !! u').
Proof.
  intros h. unfold add_assistant_message. subst h.
  rewrite <- ensure_entry_history.
  pose proof (ensure_entry_other m u) as Hother.
  destruct (_ensure_entry config clock m u) as [e m1].
  cbn [_now fst snd] in *.
  destruct (_truncate_history tokenizer config (history e ++ [_]))
    as [r h']. cbn [fst snd _store].
  split_and!; [done| |].
  - exists (_ticks m1). by rewrite lookup_insert_eq.
  - intros u' Hne. rewrite lookup_insert_ne by done. by apply Hother.
Qed.

Lemma add_user_message_entry (m : ConversationManager) (u : Z)
    (c : string) :
  let swept := purge_inactive config clock m in
  let h := (prior_history config swept u ++ [mkMsg "user" c])%list in
  (add_user_message tokenizer config clock m u c).1
  = (_truncate_history tokenizer config h).1
  /\ (exists j : nat,
        _store (add_user_message tokenizer config clock m u c).2 !! u
        = Some (mkEntry (_truncate_history tokenizer config h).2 (clock j)))
  /\ (forall u' : Z, u <> u' ->
        _store (add_user_message tokenizer config clock m u c).2 !! u'
        = _store swept !! u').
Proof.
  intros swept h. unfold add_user_message. fold swept. subst h.
  rewrite <- ensure_entry_history.
  pose proof (ensure_entry_other swept u) as Hother.
  destruct (_ensure_entry config clock swept u) as [e m1].
  cbn [_now fst snd] in *.
  destruct (_truncate_history tokenizer config (history e ++ [_]))
    as [r h']. cbn [fst snd _store].
  split_and!; [done| |].
  - exists (_ticks m1). by rewrite lookup_insert_eq.
  - intros u' Hne. rewrite lookup_insert_ne by done. by apply Hother.
Qed.

End Appends.

(** ** Expiry *)

Lemma is_inactive_true config (current : Q) (entry : ConversationEntry) :
  (inject_Z (history_ttl_seconds config) < current - updated_at entry)%Q ->
  is_inactive config current entry = true.
Proof.
  intros Hlt. unfold is_inactive.
  destruct (Qle_bool _ _) eqn:Hle; [|done].
  apply Qle_bool_iff in Hle. by apply Qlt_not_le in Hlt.
Qed.

Lemma is_inactive_false config (current : Q) (entry : ConversationEntry) :
  (current - updated_at entry <= inject_Z (history_ttl_seconds config))%Q ->
  is_inactive config current entry = false.
Proof.
  intros Hle. unfold is_inactive.
  apply Qle_bool_iff in Hle. by rewrite Hle.
Qed.

(** C8. With a positive TTL the sweep removes an entry exactly when its age
    [now - updated_at] exceeds the TTL, keeps every other entry as it is and
    adds none; with a TTL of 0 or less it changes nothing.
    [add_user_message] works on the swept store: other users' entries are
    those the sweep leaves and the user's own history continues from what
    the sweep leaves.  [add_assistant_message] works on the store as it
    is. *)
Theorem ttl_purge_semantics tokenizer config clock
    (m : ConversationManager) :
  let ttl := history_ttl_seconds config in
  let now := clock (_ticks m) in
  let swept := purge_inactive config clock m in
  (0 < ttl ->
   forall (u : Z) (entry : ConversationEntry),
     _store m !! u = Some entry ->
     ((inject_Z ttl < now - updated_at entry)%Q -> _store swept !! u = None)
     /\ ((now - updated_at entry <= inject_Z ttl)%Q ->
         _store swept !! u = Some entry))
  /\ (forall u : Z, _store m !! u = None -> _store swept !! u = None)
  /\ (ttl <= 0 -> swept = m)
  /\ (forall (u : Z) (c : string),
        (exists j : nat,
            _store (add_user_message tokenizer config clock m u c).2 !! u
            = Some (mkEntry
                      (_truncate_history tokenizer config
                         (prior_history config swept u ++ [mkMsg "user" c])).2
                      (clock j)))
        /\ forall u' : Z, u <> u' ->
             _store (add_user_message tokenizer config clock m u c).2 !! u'
             = _store swept !! u')
  /\ (forall (u : Z) (c : string),
        (exists j : nat,
            _store (add_assistant_message tokenizer config clock m u c).2 !! u
            = Some (mkEntry
                      (_truncate_history tokenizer config
                         (prior_history config m u
                          ++ [mkMsg "assistant" c])).2
                      (clock j)))
        /\ forall u' : Z, u <> u' ->
             _store (add_assistant_message tokenizer config clock m u c).2
               !! u'
             = _store m !! u').
Proof.
  intros ttl now swept. split_and!.
  - intros Hpos u entry Hu. unfold swept. rewrite purge_inactive_lookup, Hu.
    destruct (Z.leb_spec (history_ttl_seconds config) 0); [unfold ttl in *; lia|].
    split; intros Hage.
    + by rewrite is_inactive_true.
    + by rewrite is_inactive_false.
  - intros u Hu. unfold swept. rewrite purge_inactive_lookup, Hu.
    by destruct (history_ttl_seconds config <=? 0).
  - intros Hle. unfold swept, purge_inactive.
    by destruct (Z.leb_spec (history_ttl_seconds config) 0);
      [|unfold ttl in *; lia].
  - intros u c.
    by destruct (add_user_message_entry tokenizer config clock m u c)
      as (_ & Hu & Hother).
  - intros u c.
    by destruct (add_assistant_message_entry tokenizer config clock m u c)
      as (_ & Hu & Hother).
Qed.

Lemma ttl_purge_semantics_witness :
  _store ttl_demo_manager !! 7 = Some ttl_demo_entry
  /\ _store (purge_inactive sample_config striding_clock ttl_demo_manager)
       !! 7 = None.
Proof.
  split; [reflexivity|].
  destruct (ttl_purge_semantics None sample_config striding_clock
              ttl_demo_manager) as (Hpos & _).
  destruct (Hpos ltac:(reflexivity) 7 ttl_demo_entry ltac:(reflexivity))
    as [Hgone _].
  apply Hgone. reflexivity.
Defined.

Example ttl_demo_manager_reached :
  run None sample_config striding_clock init [AddUser 7 "hi"]
  = ttl_demo_manager.
Proof. reflexivity. Qed.

(** ** Rendering *)

Lemma build_prompt_renders tokenizer config clock (m : ConversationManager)
    (u : Z) (cue : bool) :
  (build_prompt tokenizer config clock m u cue).1
  = build_prompt_from_history tokenizer
      (history (_ensure_entry config clock m u).1) cue.
Proof.
  unfold build_prompt, build_prompt_from_history.
  destruct (_ensure_entry config clock m u) as [e m1].
  by destruct tokenizer as [[[template|] enc]|].
Qed.

Lemma build_prompt_state tokenizer config clock (m : ConversationManager)
    (u : Z) (cue : bool) :
  (build_prompt tokenizer config clock m u cue).2
  = (_ensure_entry config clock m u).2.
Proof.
  unfold build_prompt.
  destruct (_ensure_entry config clock m u) as [e m1].
  by destruct tokenizer as [[[template|] enc]|].
Qed.

(** C9. Without a tokenizer (or with one that has no chat template) the
    rendering of a history is, turn by turn, the tag line of the role, the
    content and a newline, with a closing assistant tag line exactly when
    the cue is asked for; [build_prompt] renders a stored history the same
    way; the two-turn scenario renders to the stated text. *)
Theorem fallback_rendering_correct config clock (turns : list ChatTurn)
    (cue : bool) :
  build_prompt_from_history None (to_message <$> turns) cue
  = Ok (fallback_rendering turns cue)
  /\ (forall enc,
        build_prompt_from_history (Some (mkTokenizer None enc))
          (to_message <$> turns) cue
        = Ok (fallback_rendering turns cue))
  /\ (forall (m : ConversationManager) (u : Z) (entry : ConversationEntry),
        _store m !! u = Some entry ->
        history entry = to_message <$> turns ->
        build_prompt None config clock m u cue
        = (Ok (fallback_rendering turns cue), m))
  /\ build_prompt_from_history None
       [mkMsg "system" "s"; mkMsg "user" "u"] true
     = Ok "<|system|>
s
<|user|>
u
<|assistant|>
".
Proof.
  split_and!.
  - unfold build_prompt_from_history. by rewrite fallback_parts.
  - intros enc. unfold build_prompt_from_history. cbn [apply_chat_template].
    by rewrite fallback_parts.
  - intros m u entry Hu Hh. unfold build_prompt, _ensure_entry.
    rewrite Hu, Hh. by rewrite fallback_parts.
  - reflexivity.
Qed.

Lemma fallback_rendering_correct_witness :
  build_prompt None sample_config still_clock scenario_manager 7 true
  = (Ok "<|system|>
s
<|user|>
u
<|assistant|>
", scenario_manager).
Proof.
  destruct (fallback_rendering_correct sample_config still_clock
              scenario_turns true) as (_ & _ & Hstored & _).
  apply (Hstored scenario_manager 7
           (mkEntry (to_message <$> scenario_turns) 0%Q));
    reflexivity.
Defined.

(** ** [build_prompt] and the store *)

(** C7, as stated, fails: on a new manager [build_prompt] for user 7 leaves
    a store that holds a seeded entry for 7. *)
Lemma build_prompt_inserts_entry :
  _store (build_prompt None sample_config still_clock init 7 true).2
  <> _store init
  /\ _store init !! 7 = None
  /\ _store (build_prompt None sample_config still_clock init 7 true).2 !! 7
     = Some (mkEntry [mkMsg "system" "sys"] 0%Q).
Proof.
  split_and!; [|reflexivity|reflexivity].
  intros Heq.
  assert (Hl : _store (build_prompt None sample_config still_clock init 7
                         true).2 !! 7 = _store init !! 7)
    by (by rewrite Heq).
  discriminate Hl.
Qed.

(** C7, amended. [build_prompt] returns the rendering of the history that
    [_ensure_entry] yields.  For a user with an entry that is the stored
    history and the manager is left as it was.  For a user without an entry
    the store gains exactly one entry, for that user, seeded with the
    System turn and stamped with the clock reading; no other entry
    changes. *)
Theorem build_prompt_frame tokenizer config clock (m : ConversationManager)
    (u : Z) (cue : bool) :
  (forall entry : ConversationEntry,
      _store m !! u = Some entry ->
      build_prompt tokenizer config clock m u cue
      = (build_prompt_from_history tokenizer (history entry) cue, m))
  /\ (_store m !! u = None ->
      (build_prompt tokenizer config clock m u cue).1
      = build_prompt_from_history tokenizer [system_turn config] cue
      /\ _store (build_prompt tokenizer config clock m u cue).2
         = <[u := mkEntry [system_turn config] (clock (_ticks m))]>
             (_store m)).
Proof.
  split.
  - intros entry Hu.
    rewrite (surjective_pairing (build_prompt tokenizer config clock m u cue)).
    rewrite build_prompt_renders, build_prompt_state.
    unfold _ensure_entry. by rewrite Hu.
  - intros Hu. rewrite build_prompt_renders, build_prompt_state.
    unfold _ensure_entry. by rewrite Hu.
Qed.

Lemma build_prompt_frame_witness :
  build_prompt None sample_config still_clock scenario_manager 7 false
  = (Ok "<|system|>
s
<|user|>
u
", scenario_manager)
  /\ _store (build_prompt None sample_config still_clock init 7 true).2
     = {[ 7 := mkEntry [mkMsg "system" "sys"] 0%Q ]}.
Proof.
  destruct (build_prompt_frame None sample_config still_clock
              scenario_manager 7 false) as [Hpresent _].
  destruct (build_prompt_frame None sample_config still_clock init 7 true)
    as [_ Habsent].
  split.
  - etrans;
      [apply (Hpresent (mkEntry (to_message <$> scenario_turns) 0%Q))|];
      reflexivity.
  - etrans; [apply Habsent|]; reflexivity.
Defined.

(** ** A truncation that fails partway *)

(** C5, as stated, fails: the encode step raises after one pair has been
    deleted; what is left is neither the history the pass was given nor a
    fully truncated one, and [add_user_message] stores it. *)
Lemma truncation_failure_partial :
  _truncate_history (Some short_prompt_failing) failure_config
    failure_history
  = (Raise "EncodingError", failure_left)
  /\ failure_left <> failure_history
  /\ ~ fully_truncated (Some short_prompt_failing) failure_config
        failure_left
  /\ (let m := run (Some short_prompt_failing) failure_config still_clock
                 init failure_calls in
      let after := add_user_message (Some short_prompt_failing)
                     failure_config still_clock m 7 "Cu" in
      history <$> _store m !! 7 = Some (take 5 failure_history)
      /\ after.1 = Raise "EncodingError"
      /\ history <$> _store after.2 !! 7 = Some failure_left).
Proof.
  split_and!; [reflexivity|discriminate| |by vm_compute].
  intros [_ [Hoff|[(n & Hcount & _)|Hlen]]].
  - vm_compute in Hoff. by apply Hoff.
  - vm_compute in Hcount. discriminate Hcount.
  - vm_compute in Hlen. lia.
Qed.

(** C5, amended. When [_truncate_history] raises, the token budget is on and
    measuring the history now in place is what raised; that history is the
    result of the pair-count pass with some number of oldest pairs deleted,
    so item 0 is kept and the rest is a suffix of what was there.  Both
    appends pass the outcome on to their caller and store the history as
    the truncation left it. *)
Theorem truncation_failure_state tokenizer config clock :
  (forall (h : list ChatMessage) (e : string) (h' : list ChatMessage),
      _truncate_history tokenizer config h = (Raise e, h') ->
      0 < history_max_tokens config
      /\ (exists k : nat, h' = delete_pairs k (pair_count_pass config h).2)
      /\ token_count tokenizer h' = Raise e
      /\ trimmed h h')
  /\ (forall (m : ConversationManager) (u : Z) (c : string),
        let h := (prior_history config (purge_inactive config clock m) u
                  ++ [mkMsg "user" c])%list in
        (add_user_message tokenizer config clock m u c).1
        = (_truncate_history tokenizer config h).1
        /\ exists j : nat,
            _store (add_user_message tokenizer config clock m u c).2 !! u
            = Some (mkEntry (_truncate_history tokenizer config h).2
                            (clock j)))
  /\ (forall (m : ConversationManager) (u : Z) (c : string),
        let h := (prior_history config m u ++ [mkMsg "assistant" c])%list in
        (add_assistant_message tokenizer config clock m u c).1
        = (_truncate_history tokenizer config h).1
        /\ exists j : nat,
            _store (add_assistant_message tokenizer config clock m u c).2
              !! u
            = Some (mkEntry (_truncate_history tokenizer config h).2
                            (clock j))).
Proof.
  split_and!.
  - intros h e h' Htrunc.
    pose proof (truncate_history_trimmed tokenizer config h) as Htrim.
    rewrite Htrunc in Htrim. cbn [snd] in Htrim.
    unfold _truncate_history in Htrunc.
    pose proof (pair_count_pass_ok config h) as Hok.
    destruct (pair_count_pass config h) as [[[]|e1] h1]; [|done].
    cbn [snd]. unfold token_budget_pass in Htrunc.
    destruct (Z.leb_spec (history_max_tokens config) 0); [done|].
    pose proof (token_budget_loop_post tokenizer config h1) as Hpost.
    rewrite Htrunc in Hpost.
    destruct Hpost as (k & Hk & _ & _ & Hraise & _).
    split_and!; [lia|by exists k|by apply Hraise|done].
  - intros m u c h.
    destruct (add_user_message_entry tokenizer config clock m u c)
      as (Hr & Hu & _). by split.
  - intros m u c h.
    destruct (add_assistant_message_entry tokenizer config clock m u c)
      as (Hr & Hu & _). by split.
Qed.

Lemma truncation_failure_state_witness :
  token_count (Some short_prompt_failing) failure_left
  = Raise "EncodingError"
  /\ trimmed failure_history failure_left.
Proof.
  destruct (truncation_failure_state (Some short_prompt_failing)
              failure_config still_clock) as (Htrunc & _).
  destruct (Htrunc failure_history "EncodingError" failure_left)
    as (_ & _ & Hcount & Htrim); [reflexivity|].
  by split.
Defined.

(** ** Scenarios at the pair cap *)

Section Scenarios.

Variable tokenizer : option Tokenizer.
Variable config : BotConfig.
Variable clock : nat -> Q.

Lemma token_budget_pass_quiet (h : list ChatMessage) :
  evicts tokenizer config h = false ->
  (token_budget_pass tokenizer config h).2 = h.
Proof.
  unfold evicts, token_budget_pass. intros Hquiet.
  destruct (Z.leb_spec (history_max_tokens config) 0); [done|].
  rewrite token_budget_loop_unfold.
  destruct (Z.ltb_spec 0 (history_max_tokens config)); [|lia].
  destruct (1 <? length h)%nat; [|done].
  destruct (token_count tokenizer h) as [n|e]; [|done].
  destruct (n <=? history_max_tokens config) eqn:Hn; [done|].
  destruct (2 <? length h)%nat; [|done].
  cbn in Hquiet. apply Z.ltb_ge in Hquiet. apply Z.leb_gt in Hn. lia.
Qed.

Lemma truncate_history_quiet (h : list ChatMessage) :
  evicts tokenizer config (pair_count_pass config h).2 = false ->
  (_truncate_history tokenizer config h).2 = (pair_count_pass config h).2.
Proof.
  intros Hquiet. unfold _truncate_history.
  pose proof (pair_count_pass_ok config h) as Hok.
  destruct (pair_count_pass config h) as [[[]|e] h1]; [|done].
  by apply token_budget_pass_quiet.
Qed.

Lemma add_user_message_fresh (m : ConversationManager) (u : Z) (c : string) :
  _store m !! u = None ->
  history <$> _store (add_user_message tokenizer config clock m u c).2 !! u
  = Some (_truncate_history tokenizer config
            [system_turn config; mkMsg "user" c]).2.
Proof.
  intros Hu.
  destruct (add_user_message_entry tokenizer config clock m u c)
    as (_ & (j & ->) & _).
  unfold prior_history.
  assert (Hswept : _store (purge_inactive config clock m) !! u = None).
  { destruct (_store (purge_inactive config clock m) !! u) as [e|] eqn:He;
      [|done].
    apply purge_inactive_subset in He. congruence. }
  by rewrite Hswept.
Qed.

Lemma add_user_message_history (m : ConversationManager) (u : Z) (c : string)
    (h : list ChatMessage) :
  history <$> _store m !! u = Some h ->
  swept_away config clock m u = false ->
  history <$> _store (add_user_message tokenizer config clock m u c).2 !! u
  = Some (_truncate_history tokenizer config (h ++ [mkMsg "user" c])).2.
Proof.
  unfold swept_away. intros Hh Hkept.
  destruct (_store m !! u) as [e|] eqn:Hu; [|done].
  injection Hh as <-.
  destruct (add_user_message_entry tokenizer config clock m u c)
    as (_ & (j & ->) & _).
  unfold prior_history. rewrite purge_inactive_lookup, Hu.
  destruct (Z.leb_spec (history_ttl_seconds config) 0); [done|].
  destruct (Z.ltb_spec 0 (history_ttl_seconds config)); [|lia].
  cbn [andb] in Hkept. by rewrite Hkept.
Qed.

Lemma add_assistant_message_history (m : ConversationManager) (u : Z)
    (c : string) (h : list ChatMessage) :
  history <$> _store m !! u = Some h ->
  history <$>
    _store (add_assistant_message tokenizer config clock m u c).2 !! u
  = Some (_truncate_history tokenizer config
            (h ++ [mkMsg "assistant" c])).2.
Proof.
  intros Hh. destruct (_store m !! u) as [e|] eqn:Hu; [|done].
  injection Hh as <-.
  destruct (add_assistant_message_entry tokenizer config clock m u c)
    as (_ & (j & ->) & _).
  unfold prior_history. by rewrite Hu.
Qed.

End Scenarios.

Lemma pair_count_pass_spec config (h : list ChatMessage) :
  0 < history_max_pairs config ->
  let max_messages := 1 + 2 * history_max_pairs config in
  (max_messages < Z.of_nat (length h) ->
   pair_count_pass config h
   = (Ok tt,
      (take 1 h ++ drop (length h - Z.to_nat (max_messages - 1)) h)%list))
  /\ (Z.of_nat (length h) <= max_messages ->
      pair_count_pass config h = (Ok tt, h)).
Proof.
  intros Hpos max_messages. unfold pair_count_pass.
  destruct (Z.ltb_spec 0 (history_max_pairs config)); [|lia].
  replace (1 + history_max_pairs config * 2) with max_messages
    by (unfold max_messages; lia).
  split; intros Hlen.
  - destruct (Z.ltb_spec max_messages (Z.of_nat (length h))); [|lia].
    destruct h as [|x rest]; [simpl in *; lia|].
    rewrite slice_last_drop by (unfold max_messages in *; lia).
    replace (length (x :: rest) - Z.to_nat (max_messages - 1))%nat
      with (S (length rest - Z.to_nat (max_messages - 1)))
      by (unfold max_messages in *; simpl length in *; lia).
    reflexivity.
  - by destruct (Z.ltb_spec max_messages (Z.of_nat (length h))); [lia|].
Qed.

(** C4, as stated, fails on the scenario.  With [history_max_pairs = 2] and
    a budget of 8 tokens the token-budget pass evicts as well; with the
    default budget and TTL and a clock that advances 4000 seconds between
    readings the entry expires before pair C.  Either way appending the
    pairs A, B, C to a new entry leaves [System, C_user, C_asst]. *)
Lemma pairs_ABC_not_last_two :
  let claimed :=
    Some [mkMsg "system" "sys"; mkMsg "user" "Bu"; mkMsg "assistant" "Ba";
          mkMsg "user" "Cu"; mkMsg "assistant" "Ca"] in
  let left :=
    Some [mkMsg "system" "sys"; mkMsg "user" "Cu"; mkMsg "assistant" "Ca"] in
  history <$> _store (run None (tight_config 2 8) still_clock init pairs_ABC)
                !! 7 = left
  /\ history <$> _store (run None (roomy_config 2) striding_clock init
                           pairs_ABC) !! 7 = left
  /\ left <> claimed.
Proof. split_and!; [reflexivity|reflexivity|discriminate]. Qed.

Lemma evicts_short tokenizer config (h : list ChatMessage) :
  (length h <= 2)%nat -> evicts tokenizer config h = false.
Proof.
  intros Hlen. unfold evicts.
  destruct (Nat.ltb_spec 2 (length h)); [lia|].
  by rewrite andb_false_r.
Qed.

Lemma truncate_history_value tokenizer config (h h' : list ChatMessage) :
  pair_count_pass config h = (Ok tt, h') ->
  evicts tokenizer config h' = false ->
  (_truncate_history tokenizer config h).2 = h'.
Proof.
  intros Hpass Hquiet. rewrite truncate_history_quiet; by rewrite Hpass.
Qed.

(** Rewrites, in [H], the truncation of a history of known shape to the
    history [h'] it leaves under the pair cap [HN]. *)
Ltac settle_truncation HN H h' :=
  rewrite (truncate_history_value _ _ _ h') in H;
  [|unfold pair_count_pass; rewrite HN; reflexivity
   |first [assumption | apply evicts_short; cbn; lia]].

(** C4, amended.  With [history_max_pairs > 0] and
    [max_messages = 1 + 2 * history_max_pairs], the pair-count pass replaces
    a history longer than [max_messages] by its item 0 followed by its last
    [max_messages - 1] items in order, and leaves a shorter one alone.
    With [history_max_pairs = 2], appending the pairs A, B, C to a new
    entry leaves [System, B_user, B_asst, C_user, C_asst] provided the
    token-budget pass evicts nothing on the way and the entry does not
    expire between the calls: the sweeps that the user messages of B and C
    start with do not remove it. *)
Theorem pair_count_pass_scenario tokenizer config clock :
  (forall h : list ChatMessage,
      0 < history_max_pairs config ->
      let max_messages := 1 + 2 * history_max_pairs config in
      (max_messages < Z.of_nat (length h) ->
       pair_count_pass config h
       = (Ok tt,
          (take 1 h
           ++ drop (length h - Z.to_nat (max_messages - 1)) h)%list))
      /\ (Z.of_nat (length h) <= max_messages ->
          pair_count_pass config h = (Ok tt, h)))
  /\ (forall (m : ConversationManager) (u : Z) (au aa bu ba cu ca : string),
        let S := system_turn config in
        let Au := mkMsg "user" au in
        let Aa := mkMsg "assistant" aa in
        let Bu := mkMsg "user" bu in
        let Ba := mkMsg "assistant" ba in
        let Cu := mkMsg "user" cu in
        let Ca := mkMsg "assistant" ca in
        history_max_pairs config = 2 ->
        _store m !! u = None ->
        swept_away config clock
          (run tokenizer config clock m [AddUser u au; AddAssistant u aa])
          u = false ->
        swept_away config clock
          (run tokenizer config clock m
             [AddUser u au; AddAssistant u aa; AddUser u bu;
              AddAssistant u ba])
          u = false ->
        evicts tokenizer config [S; Au; Aa] = false ->
        evicts tokenizer config [S; Au; Aa; Bu] = false ->
        evicts tokenizer config [S; Au; Aa; Bu; Ba] = false ->
        evicts tokenizer config [S; Aa; Bu; Ba; Cu] = false ->
        evicts tokenizer config [S; Bu; Ba; Cu; Ca] = false ->
        history <$>
          _store (run tokenizer config clock m
                    [AddUser u au; AddAssistant u aa; AddUser u bu;
                     AddAssistant u ba; AddUser u cu; AddAssistant u ca])
            !! u
        = Some [S; Bu; Ba; Cu; Ca]).
Proof.
  split; [intros h Hpos; by apply pair_count_pass_spec|].
  intros m u au aa bu ba cu ca S Au Aa Bu Ba Cu Ca
    HN Hfresh Hk1 Hk2 Hq1 Hq2 Hq3 Hq4 Hq5.
  cbn [run foldl step] in *.
  pose proof (add_user_message_fresh tokenizer config clock m u au Hfresh)
    as H.
  settle_truncation HN H [S; Au].
  apply (add_assistant_message_history tokenizer config clock _ _ aa) in H.
  settle_truncation HN H [S; Au; Aa].
  apply (add_user_message_history tokenizer config clock _ _ bu) in H;
    [|exact Hk1].
  settle_truncation HN H [S; Au; Aa; Bu].
  apply (add_assistant_message_history tokenizer config clock _ _ ba) in H.
  settle_truncation HN H [S; Au; Aa; Bu; Ba].
  apply (add_user_message_history tokenizer config clock _ _ cu) in H;
    [|exact Hk2].
  settle_truncation HN H [S; Aa; Bu; Ba; Cu].
  apply (add_assistant_message_history tokenizer config clock _ _ ca) in H.
  settle_truncation HN H [S; Bu; Ba; Cu; Ca].
  exact H.
Qed.

Lemma pair_count_pass_scenario_witness :
  history <$> _store (run None (roomy_config 2) walking_clock init pairs_ABC)
                !! 7
  = Some [mkMsg "system" "sys"; mkMsg "user" "Bu"; mkMsg "assistant" "Ba";
          mkMsg "user" "Cu"; mkMsg "assistant" "Ca"].
Proof.
  destruct (pair_count_pass_scenario None (roomy_config 2) walking_clock)
    as [_ Hscenario].
  apply (Hscenario init 7 "Au" "Aa" "Bu" "Ba" "Cu" "Ca"); reflexivity.
Defined.

(** The provisos of the split are needed.  With [history_max_pairs = 1] and
    a budget of 6 tokens the first pair is evicted once it is complete;
    with the default budget and TTL and a clock that advances 4000 seconds
    between readings the entry is swept before the second user message.
    Either way the three calls leave [System, User m2]. *)
Lemma split_calls_not_split :
  let split :=
    Some [mkMsg "system" "sys"; mkMsg "assistant" "r1"; mkMsg "user" "m2"] in
  let left := Some [mkMsg "system" "sys"; mkMsg "user" "m2"] in
  history <$> _store (run None (tight_config 1 6) still_clock init
                        split_calls) !! 7 = left
  /\ history <$> _store (run None (roomy_config 1) striding_clock init
                           split_calls) !! 7 = left
  /\ left <> split.
Proof. split_and!; [reflexivity|reflexivity|discriminate]. Qed.

Lemma pair_split_when_kept tokenizer config clock (m : ConversationManager)
    (u : Z) (m1 r1 m2 : string) :
  history_max_pairs config = 1 ->
  _store m !! u = None ->
  swept_away config clock
    (run tokenizer config clock m [AddUser u m1; AddAssistant u r1]) u
  = false ->
  evicts tokenizer config
    [system_turn config; mkMsg "user" m1; mkMsg "assistant" r1] = false ->
  evicts tokenizer config
    [system_turn config; mkMsg "assistant" r1; mkMsg "user" m2] = false ->
  history <$>
    _store (run tokenizer config clock m
              [AddUser u m1; AddAssistant u r1; AddUser u m2]) !! u
  = Some [system_turn config; mkMsg "assistant" r1; mkMsg "user" m2].
Proof.
  intros HN Hfresh Hkept Hq1 Hq2.
  cbn [run foldl step] in *.
  pose proof (add_user_message_fresh tokenizer config clock m u m1 Hfresh)
    as H.
  settle_truncation HN H [system_turn config; mkMsg "user" m1].
  apply (add_assistant_message_history tokenizer config clock _ _ r1) in H.
  settle_truncation HN H
    [system_turn config; mkMsg "user" m1; mkMsg "assistant" r1].
  apply (add_user_message_history tokenizer config clock _ _ m2) in H;
    [|exact Hkept].
  settle_truncation HN H
    [system_turn config; mkMsg "assistant" r1; mkMsg "user" m2].
  exact H.
Qed.

Lemma evicts_budget_off tokenizer config (h : list ChatMessage) :
  history_max_tokens config <= 0 -> evicts tokenizer config h = false.
Proof.
  intros HB. unfold evicts.
  by destruct (Z.ltb_spec 0 (history_max_tokens config)); [lia|].
Qed.

Lemma swept_away_ttl_off config clock (m : ConversationManager) (u : Z) :
  history_ttl_seconds config <= 0 -> swept_away config clock m u = false.
Proof.
  intros HT. unfold swept_away.
  by destruct (Z.ltb_spec 0 (history_ttl_seconds config)); [lia|].
Qed.

(** C10.  For some call sequences the retained history does not consist of
    whole User/Assistant pairs.  With [history_max_pairs = 1] the calls
    [add_user_message u m1], [add_assistant_message u r1],
    [add_user_message u m2] for a user without an entry leave exactly
    [System, Assistant r1, User m2]: the pair-count pass keeps the last two
    turns whatever their roles, so the first pair is split and its
    Assistant turn sits at index 1.  This holds for every tokenizer, clock
    and content when the token budget and the TTL are off, and, when they
    are on, whenever the token-budget pass evicts nothing on the way and
    the sweep that the second user message starts with does not remove the
    entry. *)
Theorem pair_split_at_cap tokenizer config clock (m : ConversationManager)
    (u : Z) (m1 r1 m2 : string) :
  history_max_pairs config = 1 ->
  _store m !! u = None ->
  let calls := [AddUser u m1; AddAssistant u r1; AddUser u m2] in
  let split :=
    [system_turn config; mkMsg "assistant" r1; mkMsg "user" m2] in
  (history_max_tokens config <= 0 -> history_ttl_seconds config <= 0 ->
   history <$> _store (run tokenizer config clock m calls) !! u = Some split)
  /\ (swept_away config clock
        (run tokenizer config clock m [AddUser u m1; AddAssistant u r1]) u
      = false ->
      evicts tokenizer config
        [system_turn config; mkMsg "user" m1; mkMsg "assistant" r1]
      = false ->
      evicts tokenizer config split = false ->
      history <$> _store (run tokenizer config clock m calls) !! u
      = Some split).
Proof.
  intros HN Hfresh calls split. split.
  - intros HB HT. apply pair_split_when_kept; [done|done| | |].
    + by apply swept_away_ttl_off.
    + by apply evicts_budget_off.
    + by apply evicts_budget_off.
  - intros Hkept Hq1 Hq2. by apply pair_split_when_kept.
Qed.

Lemma pair_split_at_cap_witness :
  history <$> _store (run None (roomy_config 1) walking_clock init
                        split_calls) !! 7
  = Some [mkMsg "system" "sys"; mkMsg "assistant" "r1"; mkMsg "user" "m2"].
Proof.
  refine (proj2 (pair_split_at_cap None (roomy_config 1) walking_clock init
                   7 "m1" "r1" "m2" _ _) _ _ _); reflexivity.
Defined.

(** ** What [get_history] hands out *)

(** C6 at its failing input: the caller reads the history of user 7,
    assigns to the content of item 0 of the list it received and reads
    again; the second read shows the assigned text where the configured
    System prompt was, so the stored turn itself was changed. *)
Lemma get_history_shares_turns :
  let read1 := Objects.get_history sample_config still_clock Objects.init 7 in
  let w := Objects.caller_set_content read1.2 read1.1 0 "changed" in
  let read2 := Objects.get_history sample_config still_clock w 7 in
  Objects.contents read1.2 read1.1 = [mkMsg "system" "sys"]
  /\ read2.1 <> read1.1
  /\ Objects.contents read2.2 read2.1 = [mkMsg "system" "changed"].
Proof. split_and!; [reflexivity|discriminate|reflexivity]. Qed.

Lemma contents_frame (w w' : Objects.World) (l : Objects.ref) :
  message_list w l -> heap_extends w w' ->
  Objects.contents w' l = Objects.contents w l /\ message_list w' l.
Proof.
  intros (items & Hl & Hitems) Hext.
  unfold Objects.contents, Objects.list_items.
  rewrite Hl, (Hext _ _ Hl). split.
  - clear Hl. induction Hitems as [|r items (d & Hr) _ IH]; [done|].
    cbn. by rewrite (Hext _ _ Hr), Hr, IH.
  - exists items. split; [by apply Hext|].
    eapply Forall_impl; [exact Hitems|].
    intros r (d & Hr). exists d. by apply Hext.
Qed.

Lemma alloc_extends (w : Objects.World) (o : Objects.PyObject) :
  bounded w -> heap_extends w (Objects.alloc w o).2.
Proof.
  intros Hb r o' Hr. cbn. rewrite lookup_insert_ne; [done|].
  intros <-. specialize (Hb _ _ Hr). lia.
Qed.

Lemma alloc_bounded (w : Objects.World) (o : Objects.PyObject) :
  bounded w -> bounded (Objects.alloc w o).2.
Proof.
  intros Hb r o'. cbn. rewrite lookup_insert.
  destruct (decide (Objects.next_ref w = r)) as [<-|Hne]; [lia|].
  intros Hr. specialize (Hb _ _ Hr). lia.
Qed.

Lemma abstraction_frame (w w' : Objects.World) :
  well_formed w -> heap_extends w w' ->
  Objects._store w' = Objects._store w ->
  Objects._ticks w' = Objects._ticks w ->
  abstraction w' = abstraction w.
Proof.
  intros [_ Hlists] Hext Hstore Hticks. unfold abstraction.
  rewrite Hstore, Hticks. f_equal. apply map_eq. intros u.
  rewrite !lookup_fmap.
  destruct (Objects._store w !! u) as [e|] eqn:Hu; [|done].
  cbn. by destruct (contents_frame w w' _ (Hlists u e Hu) Hext) as [-> _].
Qed.

Lemma well_formed_frame (w w' : Objects.World) :
  well_formed w -> heap_extends w w' -> bounded w' ->
  Objects._store w' = Objects._store w ->
  well_formed w'.
Proof.
  intros [_ Hlists] Hext Hb Hstore. split; [done|].
  intros u e. rewrite Hstore. intros Hu.
  by destruct (contents_frame w w' _ (Hlists u e Hu) Hext).
Qed.

Lemma abstraction_insert (w w' : Objects.World) (u : Z)
    (e : Objects.Entry) :
  well_formed w -> heap_extends w w' ->
  Objects._store w' = <[u := e]> (Objects._store w) ->
  abstraction w'
  = mkManager
      (<[u := mkEntry (Objects.contents w' (Objects.history e))
                      (Objects.updated_at e)]>
         (_store (abstraction w)))
      (Objects._ticks w').
Proof.
  intros [_ Hlists] Hext Hstore. unfold abstraction.
  rewrite Hstore, fmap_insert. cbn [_store]. do 2 f_equal.
  apply map_eq. intros u'. rewrite !lookup_fmap.
  destruct (Objects._store w !! u') as [e'|] eqn:Hu; [|done].
  cbn. by destruct (contents_frame w w' _ (Hlists u' e' Hu) Hext) as [-> _].
Qed.

Lemma heap_extends_trans (w1 w2 w3 : Objects.World) :
  heap_extends w1 w2 -> heap_extends w2 w3 -> heap_extends w1 w3.
Proof. intros H12 H23 r o Hr. by apply H23, H12. Qed.

Lemma alloc_lookup (w : Objects.World) (o : Objects.PyObject) :
  Objects.heap (Objects.alloc w o).2 !! Objects.next_ref w = Some o.
Proof. cbn. apply lookup_insert_eq. Qed.

Section ObjectFacts.

Variable config : BotConfig.
Variable clock : nat -> Q.

Lemma ensure_entry_refines (w : Objects.World) (u : Z) :
  well_formed w ->
  let r := Objects._ensure_entry config clock w u in
  well_formed r.2
  /\ heap_extends w r.2
  /\ Objects._store r.2 !! u = Some r.1
  /\ abstraction r.2 = (_ensure_entry config clock (abstraction w) u).2
  /\ mkEntry (Objects.contents r.2 (Objects.history r.1))
             (Objects.updated_at r.1)
     = (_ensure_entry config clock (abstraction w) u).1.
Proof.
  intros Hwf r. subst r. pose proof Hwf as [Hb Hlists].
  unfold _ensure_entry. cbn [abstraction _store]. rewrite lookup_fmap.
  destruct (Objects._store w !! u) as [e|] eqn:Hu.
  - unfold Objects._ensure_entry. rewrite Hu. cbn.
    split_and!; try done. by intros ? ?.
  - set (sys := Objects.DictObj (mkMsg "system" (system_prompt config))).
    set (w1 := (Objects.alloc w sys).2).
    set (l := Objects.ListObj [Objects.next_ref w]).
    set (w2 := (Objects.alloc w1 l).2).
    set (e := Objects.mkEntry (Objects.next_ref w1) (clock (Objects._ticks w))).
    set (w3 := Objects.mkWorld (Objects.heap w2) (Objects.next_ref w2)
                 (<[u := e]> (Objects._store w)) (S (Objects._ticks w))).
    assert (Hrun : Objects._ensure_entry config clock w u = (e, w3))
      by (unfold Objects._ensure_entry; by rewrite Hu).
    rewrite Hrun. cbn [fst snd fmap option_fmap option_map _now _ticks _store].
    assert (Hext : heap_extends w w3).
    { apply heap_extends_trans with w1; [by apply alloc_extends|].
      apply (alloc_extends w1 l). by apply alloc_bounded. }
    assert (Hb3 : bounded w3).
    { apply (alloc_bounded w1 l). by apply alloc_bounded. }
    assert (Hl : Objects.heap w3 !! Objects.next_ref w1 = Some l)
      by apply alloc_lookup.
    assert (Hs : Objects.heap w3 !! Objects.next_ref w = Some sys).
    { apply (alloc_extends w1 l); [by apply alloc_bounded|].
      apply alloc_lookup. }
    assert (Hc : Objects.contents w3 (Objects.history e)
                 = [mkMsg "system" (system_prompt config)]).
    { unfold Objects.contents, Objects.list_items. cbn [Objects.history e].
      rewrite Hl. unfold l. cbn [omap list_omap]. by rewrite Hs. }
    split_and!.
    + split; [done|]. intros u' e'. cbn [Objects._store w3].
      destruct (decide (u = u')) as [<-|Hne].
      * rewrite lookup_insert_eq. intros [= <-].
        exists [Objects.next_ref w]. split; [done|].
        apply Forall_singleton. by eexists.
      * rewrite lookup_insert_ne by done. intros Hu'.
        by destruct (contents_frame w w3 _ (Hlists u' e' Hu') Hext).
    + done.
    + apply lookup_insert_eq.
    + rewrite (abstraction_insert w w3 u e); [|done|done|done].
      by rewrite Hc.
    + by rewrite Hc.
Qed.

Lemma get_history_unfold (w : Objects.World) (u : Z) :
  Objects.get_history config clock w u
  = Objects.alloc (Objects._ensure_entry config clock w u).2
      (Objects.ListObj
         (Objects.list_items (Objects._ensure_entry config clock w u).2
            (Objects.history (Objects._ensure_entry config clock w u).1))).
Proof.
  unfold Objects.get_history.
  by destruct (Objects._ensure_entry config clock w u).
Qed.

Lemma get_history_again (m : ConversationManager) (u : Z) :
  (get_history config clock (_ensure_entry config clock m u).2 u).1
  = (get_history config clock m u).1.
Proof.
  unfold get_history, _ensure_entry.
  destruct (_store m !! u) as [e|] eqn:Hu; cbn.
  - by rewrite Hu.
  - by rewrite lookup_insert_eq.
Qed.

Lemma get_history_state (m : ConversationManager) (u : Z) :
  (get_history config clock m u).2 = (_ensure_entry config clock m u).2.
Proof. unfold get_history. by destruct (_ensure_entry config clock m u). Qed.

Lemma get_history_value (m : ConversationManager) (u : Z) :
  (get_history config clock m u).1
  = history (_ensure_entry config clock m u).1.
Proof. unfold get_history. by destruct (_ensure_entry config clock m u). Qed.

Lemma contents_copy (w : Objects.World) (l : Objects.ref) :
  bounded w -> message_list w l ->
  Objects.contents
    (Objects.alloc w (Objects.ListObj (Objects.list_items w l))).2
    (Objects.next_ref w)
  = Objects.contents w l.
Proof.
  intros Hb (items & Hl & Hitems).
  assert (Hitems_l : Objects.list_items w l = items)
    by (unfold Objects.list_items; by rewrite Hl).
  rewrite Hitems_l.
  pose proof (alloc_extends w (Objects.ListObj items) Hb) as Hext.
  pose proof (alloc_lookup w (Objects.ListObj items)) as Hnew.
  unfold Objects.contents. rewrite Hitems_l.
  unfold Objects.list_items. rewrite Hnew.
  clear Hl Hitems_l Hnew. revert Hext.
  generalize (Objects.alloc w (Objects.ListObj items)).2. intros w' Hext.
  induction Hitems as [|r items' (d & Hr) _ IH]; [done|].
  cbn [omap list_omap]. by rewrite (Hext _ _ Hr), Hr, IH.
Qed.

(** The object-level read returns a new list object whose messages are
    those the value-level [Manager.get_history] returns, and leaves a world
    that stands for the manager the value-level read leaves. *)
Lemma get_history_refines (w : Objects.World) (u : Z) :
  well_formed w ->
  let r := Objects.get_history config clock w u in
  well_formed r.2
  /\ Objects.heap w !! r.1 = None
  /\ Objects.contents r.2 r.1 = (get_history config clock (abstraction w) u).1
  /\ abstraction r.2 = (get_history config clock (abstraction w) u).2.
Proof.
  intros Hwf r. subst r. rewrite get_history_unfold.
  rewrite get_history_value, get_history_state.
  destruct (ensure_entry_refines w u Hwf)
    as ([Hb1 Hlists1] & Hext & Hu & <- & <-).
  set (w1 := (Objects._ensure_entry config clock w u).2) in *.
  set (e := (Objects._ensure_entry config clock w u).1) in *.
  set (items := Objects.list_items w1 (Objects.history e)).
  split_and!.
  - apply well_formed_frame with w1; [done| | |done].
    + by apply alloc_extends.
    + by apply alloc_bounded.
  - cbn [fst Objects.alloc].
    destruct (Objects.heap w !! Objects.next_ref w1) as [o|] eqn:Ho; [|done].
    apply Hext, Hb1 in Ho. lia.
  - cbn [fst snd history]. apply contents_copy; [done|]. by apply (Hlists1 u).
  - apply abstraction_frame; [done| |done|done]. by apply alloc_extends.
Qed.


(** The list object itself is the caller's own: a second read with no
    write in between returns the same messages as the first, and so does a
    read that follows any change to the items of the list the first read
    returned. *)
Lemma get_history_list_is_private (w : Objects.World) (u : Z)
    (items' : list Objects.ref) :
  well_formed w ->
  let r1 := Objects.get_history config clock w u in
  let r2 := Objects.get_history config clock r1.2 u in
  let r3 := Objects.get_history config clock
              (Objects.caller_set_items r1.2 r1.1 items') u in
  Objects.contents r2.2 r2.1 = Objects.contents r1.2 r1.1
  /\ Objects.contents r3.2 r3.1 = Objects.contents r1.2 r1.1.
Proof.
  intros Hwf r1 r2 r3.
  destruct (get_history_refines w u Hwf) as (Hwf1 & _ & Hc1 & Ha1).
  fold r1 in Hwf1, Hc1, Ha1.
  rewrite get_history_state in Ha1.
  split.
  - destruct (get_history_refines r1.2 u Hwf1) as (_ & _ & Hc2 & _).
    fold r2 in Hc2. by rewrite Hc2, Ha1, get_history_again, Hc1.
  - destruct (ensure_entry_refines w u Hwf) as (Hwf0 & _ & _ & Ha0 & _).
    set (w0 := (Objects._ensure_entry config clock w u).2) in *.
    set (w' := Objects.caller_set_items r1.2 r1.1 items') in *.
    assert (Hr1 : r1 = Objects.alloc w0
                         (Objects.ListObj
                            (Objects.list_items w0
                               (Objects.history
                                  (Objects._ensure_entry config clock w u).1))))
      by apply get_history_unfold.
    assert (Hext : heap_extends w0 w').
    { intros r o Hr. unfold w'. rewrite Hr1. cbn.
      destruct Hwf0 as [Hb0 _]. specialize (Hb0 _ _ Hr).
      rewrite !lookup_insert_ne by lia. done. }
    assert (Hb' : bounded w').
    { intros r o. unfold w'. rewrite Hr1. cbn. rewrite !lookup_insert.
      destruct (decide (Objects.next_ref w0 = r)) as [<-|Hne]; [lia|].
      intros Hr. destruct Hwf0 as [Hb0 _]. specialize (Hb0 _ _ Hr). lia. }
    assert (Hstore : Objects._store w' = Objects._store w0)
      by (unfold w'; by rewrite Hr1).
    assert (Hticks : Objects._ticks w' = Objects._ticks w0)
      by (unfold w'; by rewrite Hr1).
    pose proof (well_formed_frame w0 w' Hwf0 Hext Hb' Hstore) as Hwf'.
    pose proof (abstraction_frame w0 w' Hwf0 Hext Hstore Hticks) as Ha'.
    destruct (get_history_refines w' u Hwf') as (_ & _ & Hc3 & _).
    fold r3 in Hc3. by rewrite Hc3, Ha', Ha0, get_history_again, Hc1.
Qed.

End ObjectFacts.

Lemma well_formed_init : well_formed Objects.init.
Proof. split; intros ? ?; cbn; by rewrite lookup_empty. Qed.

(** * Further properties of the manager *)

Lemma clear_history_lookup (m : ConversationManager) (u u' : Z) :
  _store (clear_history m u) !! u'
  = if decide (u = u') then None else _store m !! u'.
Proof.
  unfold clear_history. destruct (decide (u = u')) as [<-|Hne].
  - destruct (_store m !! u) eqn:Hu; [|done]. cbn. apply lookup_delete_eq.
  - destruct (_store m !! u); [|done]. cbn. by rewrite lookup_delete_ne.
Qed.

(** X1. [clear_history] removes the entry of its user and no other, and is
    a no-op for a user without an entry; the next [get_history] for that
    user returns the one-turn seed. *)
Theorem clear_history_reseeds config clock (m : ConversationManager)
    (u : Z) :
  _store (clear_history m u) !! u = None
  /\ (forall u' : Z, u <> u' ->
        _store (clear_history m u) !! u' = _store m !! u')
  /\ (_store m !! u = None -> clear_history m u = m)
  /\ (get_history config clock (clear_history m u) u).1
     = [system_turn config].
Proof.
  assert (Hgone : _store (clear_history m u) !! u = None)
    by (rewrite clear_history_lookup; by rewrite decide_True).
  split_and!; [done| | |].
  - intros u' Hne. rewrite clear_history_lookup. by rewrite decide_False.
  - intros Hu. unfold clear_history. by rewrite Hu.
  - unfold get_history, _ensure_entry. by rewrite Hgone.
Qed.

Lemma clear_history_reseeds_witness :
  _store (clear_history two_user_manager 7) !! 8
  = _store two_user_manager !! 8
  /\ clear_history Manager.init 7 = Manager.init.
Proof.
  destruct (clear_history_reseeds sample_config still_clock
              two_user_manager 7) as (_ & Hother & _).
  destruct (clear_history_reseeds sample_config still_clock Manager.init 7)
    as (_ & _ & Habsent & _).
  split; [by apply Hother|by apply Habsent].
Defined.

(** X2. [get_history] for a user with an entry returns the stored history
    and leaves the manager as it is, timestamp and clock included; for a
    user without one it returns the seed and the store gains exactly that
    entry, stamped with the clock reading. *)
Theorem get_history_read config clock (m : ConversationManager) (u : Z) :
  (forall entry : ConversationEntry,
      _store m !! u = Some entry ->
      get_history config clock m u = (history entry, m))
  /\ (_store m !! u = None ->
      (get_history config clock m u).1 = [system_turn config]
      /\ _store (get_history config clock m u).2
         = <[u := mkEntry [system_turn config] (clock (_ticks m))]>
             (_store m)).
Proof.
  split; intros; unfold get_history, _ensure_entry; by simplify_option_eq.
Qed.

Lemma get_history_read_witness :
  get_history sample_config still_clock two_user_manager 7
  = (history sample_entry, two_user_manager).
Proof.
  destruct (get_history_read sample_config still_clock two_user_manager 7)
    as [Hpresent _].
  by apply Hpresent.
Defined.

(** X3. A call made for one user changes the entry of another user only
    through the sweep that [add_user_message] starts with: after
    [add_user_message] the other entries are those the sweep leaves, after
    any other call they are as before. *)
Theorem step_frame tokenizer config clock (m : ConversationManager)
    (c : Call) (u' : Z) :
  call_user c <> u' ->
  _store (step tokenizer config clock m c) !! u'
  = match c with
    | AddUser _ _ => _store (purge_inactive config clock m) !! u'
    | _ => _store m !! u'
    end.
Proof.
  intros Hne. destruct c as [u s|u s|u|u g|u]; cbn [step call_user] in *.
  - by destruct (add_user_message_entry tokenizer config clock m u s)
      as (_ & _ & ->).
  - by destruct (add_assistant_message_entry tokenizer config clock m u s)
      as (_ & _ & ->).
  - rewrite get_history_state. by apply ensure_entry_other.
  - rewrite build_prompt_state. by apply ensure_entry_other.
  - rewrite clear_history_lookup. by rewrite decide_False.
Qed.

Lemma step_frame_witness :
  _store (step None sample_config still_clock two_user_manager
            (ClearHistory 7)) !! 8
  = _store two_user_manager !! 8.
Proof.
  by apply (step_frame None sample_config still_clock two_user_manager
              (ClearHistory 7) 8).
Defined.

Lemma truncate_history_off tokenizer config (h : list ChatMessage) :
  history_max_pairs config <= 0 ->
  history_max_tokens config <= 0 ->
  _truncate_history tokenizer config h = (Ok tt, h).
Proof.
  intros HN HB. unfold _truncate_history, pair_count_pass, token_budget_pass.
  destruct (Z.ltb_spec 0 (history_max_pairs config)); [lia|].
  by destruct (Z.leb_spec (history_max_tokens config) 0); [|lia].
Qed.

(** X4. With both limits off ([history_max_pairs <= 0] and
    [history_max_tokens <= 0]) [_truncate_history] returns normally and
    leaves the history as it is, whatever the tokenizer. *)
Theorem truncate_history_limits_off tokenizer config
    (h : list ChatMessage) :
  history_max_pairs config <= 0 ->
  history_max_tokens config <= 0 ->
  _truncate_history tokenizer config h = (Ok tt, h).
Proof. apply truncate_history_off. Qed.

Lemma truncate_history_limits_off_witness :
  _truncate_history (Some failing_tokenizer) (mkConfig "sys" 0 0 0)
    failure_history
  = (Ok tt, failure_history).
Proof.
  by apply (truncate_history_limits_off (Some failing_tokenizer)
              (mkConfig "sys" 0 0 0) failure_history).
Defined.

(** X5. A history of at most one turn, the empty one included, comes back
    from [_truncate_history] unchanged and without an exception:
    [history[0]] is never evaluated on it and the tokenizer is never
    consulted. *)
Theorem truncate_history_short tokenizer config (h : list ChatMessage) :
  (length h <= 1)%nat ->
  _truncate_history tokenizer config h = (Ok tt, h).
Proof.
  intros Hlen. unfold _truncate_history, pair_count_pass.
  assert (Htoken : token_budget_pass tokenizer config h = (Ok tt, h)).
  { unfold token_budget_pass.
    destruct (history_max_tokens config <=? 0); [done|].
    rewrite token_budget_loop_unfold.
    by destruct (Nat.ltb_spec 1 (length h)); [lia|]. }
  destruct (Z.ltb_spec 0 (history_max_pairs config)); [|done].
  by destruct (Z.ltb_spec (1 + history_max_pairs config * 2)
                          (Z.of_nat (length h))); [lia|].
Qed.

Lemma truncate_history_short_witness :
  _truncate_history (Some failing_tokenizer) sample_config [] = (Ok tt, []).
Proof.
  apply (truncate_history_short (Some failing_tokenizer) sample_config []).
  cbn. lia.
Defined.

Lemma token_budget_loop_stable tokenizer config (h h' : list ChatMessage) :
  token_budget_loop tokenizer config (length h) h = (Ok tt, h') ->
  token_budget_loop tokenizer config (length h') h' = (Ok tt, h').
Proof.
  remember (length h) as n eqn:Hn. revert h Hn.
  induction (lt_wf n) as [n _ IH]. intros h -> Hrun.
  pose proof Hrun as Hrun'. rewrite token_budget_loop_unfold in Hrun.
  destruct (Nat.ltb_spec 1 (length h)); [|by injection Hrun as <-].
  destruct (token_count tokenizer h) as [c|e]; [|done].
  destruct (c <=? history_max_tokens config); [by injection Hrun as <-|].
  destruct (Nat.ltb_spec 2 (length h)); [|by injection Hrun as <-].
  eapply IH; [|reflexivity|exact Hrun]. rewrite del_slice_length; lia.
Qed.

(** X6. Truncating is idempotent: a history that [_truncate_history]
    returned normally comes back unchanged, and normally, when truncated
    again. *)
Theorem truncate_history_idempotent tokenizer config
    (h h' : list ChatMessage) :
  _truncate_history tokenizer config h = (Ok tt, h') ->
  _truncate_history tokenizer config h' = (Ok tt, h').
Proof.
  intros Hrun. unfold _truncate_history in Hrun.
  pose proof (pair_count_pass_ok config h) as Hok.
  pose proof (pair_count_pass_length config h) as Hlen.
  destruct (pair_count_pass config h) as [[[]|e] h1]; [|done].
  cbn [snd] in Hlen.
  pose proof (trimmed_length _ _ (token_budget_pass_trimmed tokenizer config h1))
    as Hshort.
  rewrite Hrun in Hshort. cbn [snd] in Hshort.
  assert (Hpair : pair_count_pass config h' = (Ok tt, h')).
  { unfold pair_count_pass.
    destruct (Z.ltb_spec 0 (history_max_pairs config)) as [Hpos|]; [|done].
    specialize (Hlen Hpos).
    by destruct (Z.ltb_spec (1 + history_max_pairs config * 2)
                            (Z.of_nat (length h'))); [lia|]. }
  unfold _truncate_history. rewrite Hpair.
  unfold token_budget_pass in *.
  destruct (history_max_tokens config <=? 0); [done|].
  by eapply token_budget_loop_stable.
Qed.

Lemma truncate_history_idempotent_witness :
  _truncate_history None budget_demo_config
    [mkMsg "system" "sys"; mkMsg "user" "Bu"]
  = (Ok tt, [mkMsg "system" "sys"; mkMsg "user" "Bu"]).
Proof.
  by apply (truncate_history_idempotent None budget_demo_config
              budget_demo_history).
Defined.

Lemma del_slice_even_last (h : list ChatMessage) :
  Nat.Even (length h) -> (2 < length h)%nat ->
  Nat.Even (length (del_slice 1 3 h))
  /\ last (del_slice 1 3 h) = last h.
Proof.
  intros Heven Hlen.
  destruct h as [|s [|a [|b [|c rest]]]]; cbn in Hlen; try lia.
  - destruct Heven as [k Hk]. cbn in Hk. lia.
  - split; [|done]. destruct Heven as [k Hk]. cbn in *.
    exists (k - 1)%nat. lia.
Qed.

Lemma delete_pairs_even_last (k : nat) (h : list ChatMessage) :
  Nat.Even (length h) ->
  (forall j : nat, (j < k)%nat -> (2 < length (delete_pairs j h))%nat) ->
  Nat.Even (length (delete_pairs k h))
  /\ last (delete_pairs k h) = last h.
Proof.
  intros Heven. induction k as [|k IH]; intros Hlong; [done|].
  destruct IH as [Hev Hlast]; [intros j Hj; apply Hlong; lia|].
  destruct (del_slice_even_last (delete_pairs k h) Hev) as [Hev' Hlast'];
    [apply Hlong; lia|].
  split; [exact Hev'|]. etrans; [exact Hlast'|exact Hlast].
Qed.

(** X7. The token-budget pass keeps the parity of the number of turns, so
    on a history with an even number of turns (the System turn and an odd
    number of others, as after a user message in an alternating exchange)
    it never deletes the newest turn. *)
Theorem token_budget_pass_keeps_newest tokenizer config
    (h : list ChatMessage) :
  Nat.Even (length h) ->
  last (token_budget_pass tokenizer config h).2 = last h
  /\ Nat.Even (length (token_budget_pass tokenizer config h).2).
Proof.
  intros Heven. unfold token_budget_pass.
  destruct (history_max_tokens config <=? 0); [done|].
  destruct (token_budget_loop_post tokenizer config h)
    as (k & -> & Hover & _).
  destruct (delete_pairs_even_last k h Heven) as [Hev Hlast];
    [intros j Hj; by apply Hover|].
  done.
Qed.

Lemma token_budget_pass_keeps_newest_witness :
  last (token_budget_pass None budget_demo_config budget_demo_history).2
  = Some (mkMsg "user" "Bu").
Proof.
  refine (proj1 (token_budget_pass_keeps_newest None budget_demo_config
                   budget_demo_history _)).
  exists 2%nat. reflexivity.
Defined.

(** X8. A history of exactly three turns that measures over a positive
    budget loses both turns after the System turn, the newest included: the
    pass returns normally with the System turn alone. *)
Theorem token_budget_pass_three_turns tokenizer config
    (s x y : ChatMessage) :
  0 < history_max_tokens config ->
  over_budget tokenizer config [s; x; y] ->
  token_budget_pass tokenizer config [s; x; y] = (Ok tt, [s]).
Proof.
  intros HB (n & Hcount & Hn). unfold token_budget_pass.
  destruct (Z.leb_spec (history_max_tokens config) 0); [lia|].
  rewrite token_budget_loop_unfold, Hcount. cbn [length Nat.ltb Nat.leb].
  by destruct (Z.leb_spec n (history_max_tokens config)); [lia|].
Qed.

Lemma token_budget_pass_three_turns_witness :
  token_budget_pass None (tight_config 1 6)
    [mkMsg "system" "sys"; mkMsg "user" "m1"; mkMsg "assistant" "r1"]
  = (Ok tt, [mkMsg "system" "sys"]).
Proof.
  apply (token_budget_pass_three_turns None (tight_config 1 6));
    [reflexivity|].
  exists 7. split; [reflexivity|reflexivity].
Defined.

Lemma truncate_history_no_tokenizer config (h : list ChatMessage) :
  (_truncate_history None config h).1 = Ok tt.
Proof.
  unfold _truncate_history.
  pose proof (pair_count_pass_ok config h) as Hok.
  destruct (pair_count_pass config h) as [[[]|e] h1]; [|done].
  unfold token_budget_pass.
  destruct (history_max_tokens config <=? 0); [done|].
  destruct (token_budget_loop_post None config h1) as (k & _ & _ & _ & _ & Hnone).
  by apply Hnone.
Qed.

(** X9. Without a tokenizer no method of the manager raises:
    [add_user_message] and [add_assistant_message] return normally and
    [build_prompt] returns a string, in every state and for every
    input. *)
Theorem no_tokenizer_no_exception config clock (m : ConversationManager)
    (u : Z) (c : string) (cue : bool) :
  (add_user_message None config clock m u c).1 = Ok tt
  /\ (add_assistant_message None config clock m u c).1 = Ok tt
  /\ exists prompt : string,
      (build_prompt None config clock m u cue).1 = Ok prompt.
Proof.
  split_and!.
  - destruct (add_user_message_entry None config clock m u c) as (-> & _).
    apply truncate_history_no_tokenizer.
  - destruct (add_assistant_message_entry None config clock m u c)
      as (-> & _).
    apply truncate_history_no_tokenizer.
  - rewrite build_prompt_renders. unfold build_prompt_from_history. eauto.
Qed.

(** X10. An entry that is inactive when its own user sends the next message
    is dropped by the sweep before the message is appended: the
    conversation starts over from the System turn and the new message. *)
Theorem add_user_message_restarts tokenizer config clock
    (m : ConversationManager) (u : Z) (c : string)
    (entry : ConversationEntry) :
  0 < history_ttl_seconds config ->
  _store m !! u = Some entry ->
  (inject_Z (history_ttl_seconds config)
   < clock (_ticks m) - updated_at entry)%Q ->
  exists j : nat,
    _store (add_user_message tokenizer config clock m u c).2 !! u
    = Some (mkEntry
              (_truncate_history tokenizer config
                 [system_turn config; mkMsg "user" c]).2
              (clock j)).
Proof.
  intros Hpos Hu Hage.
  destruct (add_user_message_entry tokenizer config clock m u c)
    as (_ & (j & Hj) & _).
  exists j. rewrite Hj. unfold prior_history.
  rewrite purge_inactive_lookup, Hu.
  destruct (Z.leb_spec (history_ttl_seconds config) 0); [lia|].
  by rewrite is_inactive_true.
Qed.

Lemma add_user_message_restarts_witness :
  exists j : nat,
    _store (add_user_message None sample_config striding_clock
              ttl_demo_manager 7 "again").2 !! 7
    = Some (mkEntry [mkMsg "system" "sys"; mkMsg "user" "again"]
                    (striding_clock j)).
Proof.
  destruct (add_user_message_restarts None sample_config striding_clock
              ttl_demo_manager 7 "again" ttl_demo_entry)
    as [j Hj]; [reflexivity|reflexivity|reflexivity|].
  exists j. exact Hj.
Defined.

(** X11. [build_prompt] and [build_prompt_from_history] agree:
    [build_prompt] returns what [build_prompt_from_history] returns on the
    list [get_history] returns, and leaves the manager [get_history]
    leaves. *)
Theorem build_prompt_agrees tokenizer config clock
    (m : ConversationManager) (u : Z) (cue : bool) :
  build_prompt tokenizer config clock m u cue
  = (build_prompt_from_history tokenizer
       (get_history config clock m u).1 cue,
     (get_history config clock m u).2).
Proof.
  rewrite (surjective_pairing (build_prompt tokenizer config clock m u cue)).
  by rewrite build_prompt_renders, build_prompt_state, get_history_value,
    get_history_state.
Qed.

(** ** Call order *)

Lemma run_snoc tokenizer config clock (m : ConversationManager)
    (calls : list Call) (c : Call) :
  run tokenizer config clock m (calls ++ [c])
  = step tokenizer config clock (run tokenizer config clock m calls) c.
Proof. unfold run. by rewrite foldl_app. Qed.

Lemma messages_for_snoc (u : Z) (calls : list Call) (c : Call) :
  messages_for u (calls ++ [c])
  = (messages_for u calls
     ++ if decide (call_user c = u) then option_list (call_message c)
        else [])%list.
Proof.
  unfold messages_for. rewrite omap_app. f_equal. cbn.
  destruct (decide (call_user c = u)); [|done].
  by destruct (call_message c).
Qed.

Lemma ensure_entry_lookup config clock (m : ConversationManager) (u : Z) :
  _store (_ensure_entry config clock m u).2 !! u
  = Some (_ensure_entry config clock m u).1.
Proof.
  unfold _ensure_entry. destruct (_store m !! u) eqn:Hu; [done|].
  cbn. apply lookup_insert_eq.
Qed.

Lemma prior_history_follows config (log : Z -> list ChatMessage)
    (m : ConversationManager) (u : Z) :
  follows_log config log m ->
  exists k : nat,
    (k <= length (log u))%nat
    /\ prior_history config m u = system_turn config :: drop k (log u).
Proof.
  intros Hm. unfold prior_history.
  destruct (_store m !! u) as [e|] eqn:Hu.
  - destruct (Hm u e Hu) as [k Hk].
    destruct (decide (k <= length (log u))%nat).
    + by exists k.
    + exists (length (log u)). split; [done|].
      rewrite Hk, drop_all. by rewrite drop_ge by lia.
  - exists (length (log u)). split; [done|]. by rewrite drop_all.
Qed.

Lemma append_follows tokenizer config (log : list ChatMessage)
    (prior : list ChatMessage) (k : nat) (msg : ChatMessage) :
  (k <= length log)%nat ->
  prior = system_turn config :: drop k log ->
  exists k' : nat,
    (_truncate_history tokenizer config (prior ++ [msg])).2
    = system_turn config :: drop k' (log ++ [msg]).
Proof.
  intros Hk ->.
  destruct (trimmed_cons_inv _ _ _
              (truncate_history_trimmed tokenizer config
                 ((system_turn config :: drop k log) ++ [msg])))
    as [j ->].
  exists (k + j)%nat. by rewrite <- drop_drop, drop_app_le.
Qed.

Lemma step_follows_log tokenizer config clock (calls : list Call)
    (m : ConversationManager) (c : Call) :
  follows_log config (fun u => messages_for u calls) m ->
  follows_log config (fun u => messages_for u (calls ++ [c]))
    (step tokenizer config clock m c).
Proof.
  intros Hm u e. rewrite messages_for_snoc.
  destruct (decide (call_user c = u)) as [Hu|Hne].
  - destruct (prior_history_follows config _ m u Hm) as (k & Hk & Hprior).
    destruct c as [u0 s|u0 s|u0|u0 g|u0]; cbn [call_user] in Hu; subst u0;
      cbn [step call_message option_list].
    + destruct (add_user_message_entry tokenizer config clock m u s)
        as (_ & (j & ->) & _).
      intros [= <-]. cbn [history].
      assert (Hswept : follows_log config (fun u => messages_for u calls)
                         (purge_inactive config clock m))
        by (intros u' e' Hu'%purge_inactive_subset; by apply Hm).
      destruct (prior_history_follows config _ _ u Hswept)
        as (k' & Hk' & Hprior').
      by eapply append_follows.
    + destruct (add_assistant_message_entry tokenizer config clock m u s)
        as (_ & (j & ->) & _).
      intros [= <-]. cbn [history]. by eapply append_follows.
    + rewrite get_history_state, ensure_entry_lookup. intros [= <-].
      rewrite ensure_entry_history, app_nil_r. by exists k.
    + rewrite build_prompt_state, ensure_entry_lookup. intros [= <-].
      rewrite ensure_entry_history, app_nil_r. by exists k.
    + rewrite clear_history_lookup. by rewrite decide_True.
  - rewrite app_nil_r. intros He. apply (Hm u).
    destruct c as [u0 s|u0 s|u0|u0 g|u0]; cbn [call_user step] in *.
    + destruct (add_user_message_entry tokenizer config clock m u0 s)
        as (_ & _ & Hother).
      rewrite Hother in He by done. by apply purge_inactive_subset in He.
    + destruct (add_assistant_message_entry tokenizer config clock m u0 s)
        as (_ & _ & Hother).
      by rewrite Hother in He.
    + by rewrite get_history_state, ensure_entry_other in He.
    + by rewrite build_prompt_state, ensure_entry_other in He.
    + by rewrite clear_history_lookup, decide_False in He.
Qed.

(** X12. Turns are never reordered, duplicated or dropped from the middle:
    after any calls, whether they return or raise, every stored history is
    the System turn followed by a suffix of the turns appended for that
    user, in call order. *)
Theorem history_follows_call_order tokenizer config clock
    (calls : list Call) (u : Z) (entry : ConversationEntry) :
  _store (run tokenizer config clock init calls) !! u = Some entry ->
  exists k : nat,
    history entry = system_turn config :: drop k (messages_for u calls).
Proof.
  revert u entry. change (follows_log config (fun u => messages_for u calls)
                            (run tokenizer config clock init calls)).
  induction calls as [|c calls IH] using rev_ind.
  - intros u e. cbn. by rewrite lookup_empty.
  - rewrite run_snoc. by apply step_follows_log.
Qed.

Lemma history_follows_call_order_witness :
  exists k : nat,
    history sample_entry
    = system_turn sample_config :: drop k (messages_for 7 split_calls).
Proof.
  apply (history_follows_call_order None sample_config still_clock
           split_calls 7 sample_entry).
  reflexivity.
Defined.

Lemma step_keeps_all tokenizer config clock (calls : list Call)
    (m : ConversationManager) (c : Call) :
  history_max_pairs config <= 0 ->
  history_max_tokens config <= 0 ->
  history_ttl_seconds config <= 0 ->
  is_clear c = false ->
  (forall u : Z,
      prior_history config m u
      = system_turn config :: messages_for u calls) ->
  forall u : Z,
    prior_history config (step tokenizer config clock m c) u
    = system_turn config :: messages_for u (calls ++ [c]).
Proof.
  intros HN HB HT Hc Hm u. rewrite messages_for_snoc.
  assert (Hswept : purge_inactive config clock m = m).
  { unfold purge_inactive.
    by destruct (Z.leb_spec (history_ttl_seconds config) 0); [|lia]. }
  unfold prior_history at 1.
  destruct (decide (call_user c = u)) as [Hu|Hne].
  - destruct c as [u0 s|u0 s|u0|u0 g|u0]; cbn [call_user] in Hu; subst u0;
      cbn [step call_message option_list]; [| | | |done].
    + destruct (add_user_message_entry tokenizer config clock m u s)
        as (_ & (j & ->) & _).
      rewrite Hswept, truncate_history_off by done.
      cbn [snd history]. by rewrite Hm.
    + destruct (add_assistant_message_entry tokenizer config clock m u s)
        as (_ & (j & ->) & _).
      rewrite truncate_history_off by done.
      cbn [snd history]. by rewrite Hm.
    + rewrite get_history_state, ensure_entry_lookup, ensure_entry_history.
      by rewrite Hm, app_nil_r.
    + rewrite build_prompt_state, ensure_entry_lookup, ensure_entry_history.
      by rewrite Hm, app_nil_r.
  - rewrite app_nil_r, <- Hm. unfold prior_history.
    destruct c as [u0 s|u0 s|u0|u0 g|u0]; cbn [call_user step] in *;
      [| | | |done].
    + destruct (add_user_message_entry tokenizer config clock m u0 s)
        as (_ & _ & Hother).
      by rewrite Hother, Hswept.
    + destruct (add_assistant_message_entry tokenizer config clock m u0 s)
        as (_ & _ & Hother).
      by rewrite Hother.
    + by rewrite get_history_state, ensure_entry_other.
    + by rewrite build_prompt_state, ensure_entry_other.
Qed.

(** X13. With the pair cap, the token budget and the TTL all off and no
    [clear_history] among the calls, nothing is ever dropped:
    [get_history] returns the System turn followed by every turn appended
    for that user, in call order. *)
Theorem get_history_keeps_all tokenizer config clock (calls : list Call)
    (u : Z) :
  history_max_pairs config <= 0 ->
  history_max_tokens config <= 0 ->
  history_ttl_seconds config <= 0 ->
  Forall (fun c => is_clear c = false) calls ->
  (get_history config clock (run tokenizer config clock init calls) u).1
  = system_turn config :: messages_for u calls.
Proof.
  intros HN HB HT Hcalls.
  rewrite get_history_value, ensure_entry_history. revert u.
  induction calls as [|c calls IH] using rev_ind.
  { intros u. unfold prior_history. cbn. by rewrite lookup_empty. }
  apply Forall_app in Hcalls as [Hcalls Hc].
  rewrite Forall_singleton in Hc.
  intros u. rewrite run_snoc. apply step_keeps_all; [done..|]. by apply IH.
Qed.

Lemma get_history_keeps_all_witness :
  (get_history (mkConfig "sys" 0 0 0) still_clock
     (run (Some failing_tokenizer) (mkConfig "sys" 0 0 0) still_clock init
        pairs_ABC) 7).1
  = system_turn (mkConfig "sys" 0 0 0) :: messages_for 7 pairs_ABC.
Proof.
  apply (get_history_keeps_all (Some failing_tokenizer)
           (mkConfig "sys" 0 0 0) still_clock pairs_ABC 7);
    [reflexivity|reflexivity|reflexivity|].
  repeat constructor.
Defined.

(** ** The fallback token count *)

Lemma count_words_line (w : bool) (a b : string) :
  count_words w (a +:+ nl +:+ b)
  = (count_words w a + count_words false b)%nat.
Proof.
  revert w. induction a as [|c a IH]; intros w; [done|].
  change (String c a +:+ nl +:+ b) with (String c (a +:+ nl +:+ b)).
  cbn [count_words]. destruct (is_space c); [apply IH|].
  destruct w; rewrite IH; lia.
Qed.

Lemma count_words_tag_line (r : Role) (rest : string) :
  count_words false (tag_line r +:+ rest) = S (count_words false rest).
Proof.
  destruct r; cbn [tag_line]; rewrite string_app_assoc, count_words_line;
    reflexivity.
Qed.

Lemma count_words_rendering (turns : list ChatTurn) (cue : bool) :
  count_words false (fallback_rendering turns cue)
  = (sum_list ((fun t => S (count_words false (turn_content t))) <$> turns)
     + if cue then 1 else 0)%nat.
Proof.
  induction turns as [|t turns IH]; [by destruct cue|].
  cbn [fallback_rendering fmap list_fmap sum_list sum_list_with].
  rewrite count_words_tag_line, count_words_line, IH.
  unfold id. destruct cue; lia.
Qed.

(** X14. Without a tokenizer the measure the token budget is compared with
    is additive: a history costs one token for each turn's tag line plus
    the whitespace-separated words of its content, and one more for the
    generation cue. *)
Theorem fallback_token_count (turns : list ChatTurn) :
  token_count None (to_message <$> turns)
  = Ok (Z.of_nat
          (sum_list
             ((fun t => S (count_words false (turn_content t))) <$> turns)
           + 1)).
Proof.
  assert (Hrender : build_prompt_from_history None (to_message <$> turns)
                      true = Ok (fallback_rendering turns true))
    by exact (f_equal Ok (fallback_parts turns true)).
  unfold token_count. rewrite Hrender. unfold _count_tokens.
  destruct (String.eqb_spec (fallback_rendering turns true) "") as [Heq|_].
  - pose proof (count_words_rendering turns true) as Hcount.
    rewrite Heq in Hcount. cbn in Hcount. lia.
  - by rewrite count_words_rendering.
Qed.

(** X15. The list [get_history] returns is the caller's own object: a
    second read with no write in between returns the same messages as the
    first, and so does a read that follows any change to the items of the
    list the first read returned. *)
Theorem get_history_returns_own_list config clock (w : Objects.World)
    (u : Z) (items' : list Objects.ref) :
  well_formed w ->
  let r1 := Objects.get_history config clock w u in
  let r2 := Objects.get_history config clock r1.2 u in
  let r3 := Objects.get_history config clock
              (Objects.caller_set_items r1.2 r1.1 items') u in
  Objects.contents r2.2 r2.1 = Objects.contents r1.2 r1.1
  /\ Objects.contents r3.2 r3.1 = Objects.contents r1.2 r1.1.
Proof. apply get_history_list_is_private. Qed.

Lemma get_history_returns_own_list_witness :
  let r1 := Objects.get_history sample_config still_clock Objects.init 7 in
  let r3 := Objects.get_history sample_config still_clock
              (Objects.caller_set_items r1.2 r1.1 []) 7 in
  Objects.contents r3.2 r3.1 = [mkMsg "system" "sys"].
Proof.
  refine (proj2 (get_history_returns_own_list sample_config still_clock
                   Objects.init 7 [] well_formed_init)).
Defined.

(** * Further properties: the bot *)

Import LlmBot.

(** ** Strings *)

Lemma lower_app (a b : string) : lower (a +:+ b) = lower a +:+ lower b.
Proof.
  induction a as [|c a IH]; [done|].
  change (String (lower_char c) (lower (a +:+ b))
          = String (lower_char c) (lower a +:+ lower b)).
  by f_equal.
Qed.

Lemma lower_length (s : string) : String.length (lower s) = String.length s.
Proof. induction s as [|c s IH]; [done|]. cbn. by f_equal. Qed.

Lemma string_app_length (a b : string) :
  String.length (a +:+ b) = (String.length a + String.length b)%nat.
Proof.
  induction a as [|c a IH]; [done|].
  change (S (String.length (a +:+ b))
          = S (String.length a + String.length b)).
  by f_equal.
Qed.

Lemma prefix_empty (s : string) : String.prefix "" s = true.
Proof. by destruct s. Qed.

Lemma prefix_app (p x : string) : String.prefix p (p +:+ x) = true.
Proof.
  induction p as [|c p IH]; [apply prefix_empty|].
  change (String.prefix (String c p) (String c (p +:+ x)) = true).
  cbn. by destruct (ascii_dec c c).
Qed.

Lemma string_drop_app (a b : string) :
  string_drop (String.length a) (a +:+ b) = b.
Proof. induction a as [|c a IH]; [by destruct b|]. exact IH. Qed.

Lemma lstrip_length (s : string) :
  (String.length (lstrip s) <= String.length s)%nat.
Proof.
  induction s as [|c s IH]; [done|]. cbn.
  destruct (is_space c); cbn; lia.
Qed.

Lemma rstrip_length (s : string) :
  (String.length (rstrip s) <= String.length s)%nat.
Proof.
  induction s as [|c s IH]; [done|]. cbn.
  destruct (rstrip s); [destruct (is_space c)|]; cbn in *; lia.
Qed.

Lemma rstrip_idempotent (s : string) : rstrip (rstrip s) = rstrip s.
Proof.
  induction s as [|c s IH]; [done|]. cbn [rstrip].
  destruct (rstrip s) as [|k kept] eqn:Hs.
  - destruct (is_space c) eqn:Hc; [done|]. cbn. by rewrite Hc.
  - cbn [rstrip] in *. by rewrite IH.
Qed.

Lemma lstrip_fixed (s : string) :
  match s with
  | EmptyString => True
  | String c _ => is_space c = false
  end ->
  lstrip s = s.
Proof. destruct s as [|c s]; [done|]. cbn. by intros ->. Qed.

Lemma lstrip_head (s : string) :
  match lstrip s with
  | EmptyString => True
  | String c _ => is_space c = false
  end.
Proof.
  induction s as [|c s IH]; [done|]. cbn.
  by destruct (is_space c) eqn:Hc.
Qed.

Lemma rstrip_head (s : string) :
  match s with
  | EmptyString => True
  | String c _ => is_space c = false
  end ->
  match rstrip s with
  | EmptyString => True
  | String c _ => is_space c = false
  end.
Proof.
  destruct s as [|c s]; [done|]. cbn. intros Hc.
  destruct (rstrip s); [by rewrite Hc|done].
Qed.

Lemma strip_fixed (s : string) :
  lstrip (strip s) = strip s /\ rstrip (strip s) = strip s.
Proof.
  unfold strip. split; [|apply rstrip_idempotent].
  apply lstrip_fixed, rstrip_head, lstrip_head.
Qed.

Lemma strip_length (s : string) :
  (String.length (strip s) <= String.length s)%nat.
Proof.
  unfold strip. pose proof (rstrip_length (lstrip s)).
  pose proof (lstrip_length s). lia.
Qed.

(** ** [_clean_model_output] *)

Lemma contains_tail (p : string) (c : ascii) (s : string) :
  contains p (String c s) = false -> contains p s = false.
Proof. cbn [contains]. by intros [_ H]%orb_false_elim. Qed.

Lemma contains_head (p s : string) :
  contains p s = false -> String.prefix p s = false.
Proof. destruct s; cbn [contains]; by intros [H _]%orb_false_elim. Qed.

Lemma contains_drop (p : string) (n : nat) (s : string) :
  contains p (lower s) = false ->
  contains p (lower (string_drop n s)) = false.
Proof.
  revert s. induction n as [|n IH]; intros s Hs; [done|].
  destruct s as [|c s]; [done|]. cbn [string_drop]. apply IH.
  by apply contains_tail in Hs.
Qed.

Lemma find_close_none (s : string) :
  contains "</think>" (lower s) = false -> find_close s = None.
Proof.
  induction s as [|c s IH]; [done|]. intros Hs. cbn [find_close].
  rewrite (contains_head _ _ Hs). cbn [lower] in Hs.
  by rewrite IH by (by apply contains_tail in Hs).
Qed.

Lemma sub_think_no_close (s : string) :
  contains "</think>" (lower s) = false -> sub_think 0 s = s.
Proof.
  induction s as [|c s IH]; [done|]. intros Hs. cbn [sub_think].
  assert (Hrest : sub_think 0 s = s)
    by (apply IH; cbn [lower] in Hs; by apply contains_tail in Hs).
  rewrite Hrest.
  destruct (String.prefix "<think>" (lower (String c s))); [|done].
  by rewrite find_close_none by (by apply contains_drop).
Qed.

Lemma sub_think_no_open (s : string) :
  contains "<think>" (lower s) = false -> sub_think 0 s = s.
Proof.
  induction s as [|c s IH]; [done|]. intros Hs. cbn [sub_think].
  rewrite (contains_head _ _ Hs). cbn [lower] in Hs.
  by rewrite IH by (by apply contains_tail in Hs).
Qed.

Lemma sub_think_length (k : nat) (s : string) :
  (String.length (sub_think k s) <= String.length s)%nat.
Proof.
  revert k. induction s as [|c s IH]; intros k; [done|].
  cbn [sub_think String.length]. destruct k as [|k].
  - pose proof (IH 0%nat) as Hkeep.
    destruct (String.prefix "<think>" (lower (String c s)));
      [|cbn [String.length]; lia].
    destruct (find_close (string_drop 7 (String c s))) as [j|];
      [|cbn [String.length]; lia].
    pose proof (IH (6 + j + 8)%nat). lia.
  - pose proof (IH k). lia.
Qed.

Lemma sub_think_skip (x y : string) :
  sub_think (String.length x) (x +:+ y) = sub_think 0 y.
Proof.
  induction x as [|c x IH]; [done|].
  change (sub_think (S (String.length x)) (String c (x +:+ y))
          = sub_think 0 y).
  exact IH.
Qed.

Lemma prefix_cons (a : ascii) (p : string) (b : ascii) (s : string) :
  String.prefix (String a p) (String b s)
  = if ascii_dec a b then String.prefix p s else false.
Proof. reflexivity. Qed.

Lemma prefix_nil_r (a : ascii) (p : string) :
  String.prefix (String a p) "" = false.
Proof. reflexivity. Qed.

Lemma string_app_cons (c : ascii) (a b : string) :
  String c a +:+ b = String c (a +:+ b).
Proof. reflexivity. Qed.

(** A closing tag cannot begin inside [x] and end inside a closing tag that
    follows [x]: no character of the tag after the first is its first. *)
Lemma prefix_close_straddle (x y : string) :
  x <> "" ->
  String.prefix "</think>" x = false ->
  String.prefix "</think>" (x +:+ "</think>" +:+ y) = false.
Proof.
  intros Hx Hpre.
  destruct x as [|c1 [|c2 [|c3 [|c4 [|c5 [|c6 [|c7 [|c8 x]]]]]]]];
    [done|..];
    rewrite ?string_app_cons, ?prefix_cons, ?prefix_nil_r, ?prefix_empty in *;
    repeat (match goal with
            | |- context [ascii_dec ?a ?b] =>
                destruct (ascii_dec a b); try discriminate
            end);
    done.
Qed.

Lemma contains_prefix (p s : string) :
  String.prefix p s = true -> contains p s = true.
Proof. intros Hp. destruct s; cbn [contains]; by rewrite Hp. Qed.

Lemma find_close_first (body c post : string) :
  lower c = "</think>" ->
  contains "</think>" (lower body) = false ->
  find_close (body +:+ c +:+ post) = Some (String.length body).
Proof.
  intros Hc. induction body as [|a body IH]; intros Hbody.
  - change ("" +:+ c +:+ post) with (c +:+ post).
    destruct c as [|c0 c]; [done|]. rewrite string_app_cons.
    cbn [find_close]. rewrite <- string_app_cons, lower_app, Hc.
    by rewrite prefix_app.
  - rewrite string_app_cons. cbn [find_close].
    rewrite <- string_app_cons, !lower_app, Hc.
    rewrite prefix_close_straddle; [|done|by apply contains_head].
    cbn [lower] in Hbody. apply contains_tail in Hbody.
    by rewrite IH.
Qed.

(** X16. A reply without an opening tag is returned as it is, surrounding
    whitespace included; a reply with one comes back without leading or
    trailing whitespace. *)
Theorem clean_model_output_edges (text : string) :
  (contains "<think>" (lower text) = false ->
   _clean_model_output text = text)
  /\ (contains "<think>" (lower text) = true ->
      lstrip (_clean_model_output text) = _clean_model_output text
      /\ rstrip (_clean_model_output text) = _clean_model_output text).
Proof.
  unfold _clean_model_output. split; intros ->; [done|].
  cbn [negb]. apply strip_fixed.
Qed.

Lemma clean_model_output_edges_witness :
  _clean_model_output " plain answer " = " plain answer ".
Proof.
  by apply (proj1 (clean_model_output_edges " plain answer ")).
Defined.

(** X17. Cleaning never lengthens a reply. *)
Theorem clean_model_output_length (text : string) :
  (String.length (_clean_model_output text) <= String.length text)%nat.
Proof.
  unfold _clean_model_output.
  destruct (contains "<think>" (lower text)); cbn [negb]; [|done].
  pose proof (strip_length (sub_think 0 text)).
  pose proof (sub_think_length 0 text). lia.
Qed.

(** X18. For replies of code points below 256: a reply that opens with a
    think block is reduced to what follows the block, stripped.  For tags
    in any letter case, a block body without a closing tag and a remainder
    without an opening tag, the result is the stripped remainder. *)
Theorem clean_model_output_block (o body c post : string) :
  lower o = "<think>" ->
  lower c = "</think>" ->
  contains "</think>" (lower body) = false ->
  contains "<think>" (lower post) = false ->
  _clean_model_output (o +:+ body +:+ c +:+ post) = strip post.
Proof.
  intros Ho Hc Hbody Hpost.
  assert (Hlen : String.length o = 7%nat)
    by (by rewrite <- lower_length, Ho).
  unfold _clean_model_output.
  rewrite contains_prefix
    by (rewrite lower_app, Ho; apply prefix_app).
  cbn [negb]. f_equal.
  assert (Hdrop : string_drop 7 (o +:+ body +:+ c +:+ post)
                  = body +:+ c +:+ post)
    by (rewrite <- Hlen; apply string_drop_app).
  destruct o as [|o1 o]; [done|]. rewrite string_app_cons in *.
  cbn [sub_think]. rewrite <- string_app_cons, lower_app, Ho, prefix_app.
  rewrite string_app_cons, Hdrop, find_close_first by done.
  replace (6 + String.length body + 8)%nat
    with (String.length (o +:+ body +:+ c)).
  - replace (o +:+ body +:+ c +:+ post)
      with ((o +:+ body +:+ c) +:+ post)
      by (by rewrite !string_app_assoc).
    rewrite sub_think_skip. by apply sub_think_no_open.
  - rewrite !string_app_length. cbn in Hlen.
    rewrite <- (lower_length c), Hc. cbn. lia.
Qed.

Lemma clean_model_output_block_witness :
  _clean_model_output ("<Think>" +:+ "step 1 < step 2" +:+ "</THINK>"
                       +:+ "  The answer is 4. ")
  = "The answer is 4.".
Proof.
  by apply (clean_model_output_block "<Think>" "step 1 < step 2" "</THINK>"
              "  The answer is 4. ").
Defined.

(** X19. For replies of code points below 256: a reply in which no closing
    tag occurs loses nothing but surrounding whitespace; an opening tag
    that is never closed, and the text after it, stay in the reply. *)
Theorem clean_model_output_unclosed (text : string) :
  contains "</think>" (lower text) = false ->
  _clean_model_output text
  = if contains "<think>" (lower text) then strip text else text.
Proof.
  intros Hclose. unfold _clean_model_output.
  destruct (contains "<think>" (lower text)); cbn [negb]; [|done].
  by rewrite sub_think_no_close.
Qed.

Lemma clean_model_output_unclosed_witness :
  _clean_model_output "<think>so the user wants " = "<think>so the user wants".
Proof.
  by apply (clean_model_output_unclosed "<think>so the user wants ").
Defined.

(** ** [generate_response] *)

Lemma add_user_message_then_read config clock (m : ConversationManager)
    (u : Z) (msg : string) :
  let m1 := (add_user_message None config clock m u msg).2 in
  add_user_message None config clock m u msg = (Ok tt, m1)
  /\ exists entry : ConversationEntry,
      _store m1 !! u = Some entry
      /\ get_history config clock m1 u = (history entry, m1).
Proof.
  intros m1.
  destruct (add_user_message_entry None config clock m u msg)
    as (Hr & (j & Hj) & _).
  rewrite truncate_history_no_tokenizer in Hr. fold m1 in Hj.
  split.
  - rewrite (surjective_pairing (add_user_message None config clock m u msg)).
    by rewrite Hr.
  - eexists. split; [exact Hj|].
    unfold get_history, _ensure_entry. by rewrite Hj.
Qed.

Lemma apology_nonempty : apology <> "".
Proof. done. Qed.

(** X20. [generate_response] never hands the transport an empty reply: what
    it returns is a non-empty string. *)
Theorem generate_response_nonempty client config clock
    (m : ConversationManager) (u : Z) (msg reply : string) :
  (generate_response client config clock m u msg).1 = Ok reply ->
  reply <> "".
Proof.
  unfold generate_response.
  destruct (add_user_message None config clock m u msg) as [[[]|e] m1];
    [|done].
  destruct (get_history config clock m1 u) as [messages m2].
  destruct (request_response client messages) as [response|e].
  - destruct (String.eqb_spec response "") as [->|Hne]; cbn [negb fst].
    + intros [= <-]. apply apology_nonempty.
    + destruct (add_assistant_message None config clock m2 u response)
        as [[[]|e] m3]; [|done].
      by intros [= <-].
  - cbn [fst]. intros [= <-]. apply apology_nonempty.
Qed.

(** X21. When the inference call raises, or the cleaned reply is empty,
    [generate_response] returns the apology and the manager is exactly the
    one [add_user_message] left: nothing is appended or changed after
    it. *)
Theorem generate_response_failure client config clock
    (m : ConversationManager) (u : Z) (msg : string) :
  let m1 := (add_user_message None config clock m u msg).2 in
  let messages := (get_history config clock m1 u).1 in
  (exists e, request_response client messages = Raise e)
  \/ request_response client messages = Ok "" ->
  generate_response client config clock m u msg = (Ok apology, m1).
Proof.
  intros m1 messages Hfail. unfold generate_response.
  destruct (add_user_message_then_read config clock m u msg)
    as (Hadd & entry & _ & Hread).
  fold m1 in Hadd, Hread. rewrite Hadd, Hread.
  unfold messages in Hfail. rewrite Hread in Hfail. cbn [fst] in Hfail.
  destruct Hfail as [[e ->]| ->]; done.
Qed.

(** X22. When the cleaned reply is not empty, [generate_response] returns
    it, and the manager is exactly the one [add_assistant_message] leaves
    when called for the same user with that cleaned reply on the manager
    [add_user_message] left. *)
Theorem generate_response_success client config clock
    (m : ConversationManager) (u : Z) (msg reply : string) :
  let m1 := (add_user_message None config clock m u msg).2 in
  let messages := (get_history config clock m1 u).1 in
  request_response client messages = Ok reply ->
  reply <> "" ->
  generate_response client config clock m u msg
  = (Ok reply, (add_assistant_message None config clock m1 u reply).2).
Proof.
  intros m1 messages Hreply Hne. unfold generate_response.
  destruct (add_user_message_then_read config clock m u msg)
    as (Hadd & entry & _ & Hread).
  fold m1 in Hadd, Hread. rewrite Hadd, Hread.
  unfold messages in Hreply. rewrite Hread in Hreply. cbn [fst] in Hreply.
  rewrite Hreply.
  destruct (String.eqb_spec reply "") as [->|_]; [done|]. cbn [negb].
  destruct (add_assistant_message_entry None config clock m1 u reply)
    as (Hr & _).
  rewrite truncate_history_no_tokenizer in Hr.
  rewrite (surjective_pairing
             (add_assistant_message None config clock m1 u reply)).
  by rewrite Hr.
Qed.

(** X23. A completion without choices, with a first choice that has no
    content, or with content that is only whitespace gives the empty
    reply. *)
Theorem request_response_empty client (messages : list ChatMessage)
    (choices : list (option string)) :
  client messages = Ok choices ->
  choices = []
  \/ (exists rest, choices = None :: rest)
  \/ (exists content rest, choices = Some content :: rest
                            /\ strip content = "") ->
  request_response client messages = Ok "".
Proof.
  intros Hclient Hchoices. unfold request_response. rewrite Hclient.
  destruct Hchoices as [->|[[rest ->]|(content & rest & -> & Hstrip)]];
    [done|done|].
  by rewrite Hstrip.
Qed.

Lemma generate_response_nonempty_witness :
  (generate_response thinking_client sample_config still_clock Manager.init
     7 "hello").1 = Ok "Hi there"
  /\ "Hi there" <> "".
Proof.
  split; [reflexivity|].
  by apply (generate_response_nonempty thinking_client sample_config
              still_clock Manager.init 7 "hello" "Hi there").
Defined.

Lemma generate_response_failure_witness :
  generate_response down_client sample_config still_clock Manager.init 7
    "hello"
  = (Ok apology,
     (add_user_message None sample_config still_clock Manager.init 7
        "hello").2).
Proof.
  apply (generate_response_failure down_client sample_config still_clock
           Manager.init 7 "hello").
  left. by exists "ConnectionError".
Defined.

Lemma generate_response_success_witness :
  history <$>
    _store (generate_response thinking_client sample_config still_clock
              Manager.init 7 "hello").2 !! 7
  = Some [mkMsg "system" "sys"; mkMsg "user" "hello";
          mkMsg "assistant" "Hi there"].
Proof.
  rewrite (generate_response_success thinking_client sample_config
             still_clock Manager.init 7 "hello" "Hi there");
    [reflexivity|reflexivity|discriminate].
Defined.

Lemma request_response_empty_witness :
  request_response silent_client [mkMsg "system" "sys"] = Ok "".
Proof.
  apply (request_response_empty silent_client [mkMsg "system" "sys"] []);
    [reflexivity|by left].
Defined.
